(** * MicroMedics: the gameplay rules and the progress store

    A shallow embedding of the game logic of
    [src/MicroMedicsGameProblematic.jsx] (narrative flow build, v5).
    The two other builds of the repository carry the same persistence,
    controller, level and hub code, line for line, for everything that
    is modelled here.

    Conventions of the embedding.
    - JavaScript numbers that the game stores are integers (health,
      energy, score, stars) or millisecond clock readings; they are
      modelled by [Z].  Fractional clock readings are outside the model.
    - JavaScript values that come back from [JSON.parse] are dynamically
      typed; they are modelled by the inductive type [jsval], and code
      that may raise works in the [completion] monad.
    - [JSON.parse], [JSON.stringify] belong to the platform, not to the
      repository: the store is stated over an arbitrary codec (the class
      [JSON]), and a small reference codec instantiates it.
    - [localStorage] is taken to be available: [getItem] and [setItem]
      on the one key the game uses always succeed.
    - Rendering calls (texts, tweens, camera shake, [syncHud]) do not
      feed back into any modelled field and are left out; toasts of the
      hub are kept because the specification speaks about them. *)

From Stdlib Require Import ZArith String Ascii List Bool Lia.
From Stdlib Require DecimalString DecimalPos.
From stdpp Require Import base tactics option list.

Import ListNotations.
Local Open Scope string_scope.
Local Open Scope Z_scope.

(** ** JavaScript values and completions *)

Module JS.

#[warnings="-register-all"]
Inductive jsval : Type :=
| VUndef
| VNull
| VBool (b : bool)
| VNum (n : Z)
| VStr (s : string)
| VArr (items : list jsval)
| VObj (fields : list (string * jsval)).

Inductive exn : Type := TypeError | SyntaxError.

Inductive completion (A : Type) : Type :=
| Return (a : A)
| Throw (e : exn).
Arguments Return {A} a.
Arguments Throw {A} e.

Definition bind {A B} (c : completion A) (k : A -> completion B)
  : completion B :=
  match c with
  | Return a => k a
  | Throw e => Throw e
  end.

(** [try { c } catch { h }] *)
Definition try_catch {A} (c : completion A) (h : exn -> completion A)
  : completion A :=
  match c with
  | Return a => Return a
  | Throw e => h e
  end.

(** ToBoolean: what [!v], [!!v] and [a || b] look at. *)
Definition truthy (v : jsval) : bool :=
  match v with
  | VUndef | VNull => false
  | VBool b => b
  | VNum n => negb (n =? 0)%Z
  | VStr s => negb (String.eqb s "")
  | VArr _ | VObj _ => true
  end.

Fixpoint assoc (k : string) (fields : list (string * jsval)) : jsval :=
  match fields with
  | [] => VUndef
  | (k', v) :: rest => if String.eqb k k' then v else assoc k rest
  end.

(** [v.k]: reading a property of [undefined] or [null] raises a
    TypeError; an object yields its own field; every other value has
    none of the property names the game reads ([stars], [systems],
    [facts], [heart], [lungs]). *)
Definition get (v : jsval) (k : string) : completion jsval :=
  match v with
  | VUndef | VNull => Throw TypeError
  | VObj fields => Return (assoc k fields)
  | _ => Return VUndef
  end.

(** [v?.k] *)
Definition get_opt (v : jsval) (k : string) : completion jsval :=
  match v with
  | VUndef | VNull => Return VUndef
  | _ => get v k
  end.

(** [a ?? b] *)
Definition nullish (a b : jsval) : jsval :=
  match a with
  | VUndef | VNull => b
  | _ => a
  end.

(** [Array.isArray(v) ? v : []], as the list of elements. *)
Definition array_or_empty (v : jsval) : list jsval :=
  match v with
  | VArr items => items
  | _ => []
  end.

End JS.

Export JS.

(** The platform's [JSON] object, as far as the store uses it. *)
Class JSON : Type := mkJSON {
  JSON_parse : string -> completion jsval;
  JSON_stringify : jsval -> string
}.

Notation "'let*' x ':=' c 'in' k" := (JS.bind c (fun x => k))
  (at level 10, x binder, c at level 200, k at level 200).

(** ** Progress store *)

Record Systems : Type := mkSystems { heart : bool; lungs : bool }.

(** The browser's localStorage, seen through the single key
    ["mm_progress"]: [None] when the key is absent. *)
Definition storage : Type := option string.

Module Store.

(** The three persisted fields of [G], as [G.load] leaves them: [stars]
    and the elements of [facts] are whatever the stored record held. *)
Record progress : Type := mkProgress {
  stars : jsval;
  systems : Systems;
  facts : list jsval
}.

(** [stars: 0, systems: { heart: false, lungs: false }, facts: []] *)
Definition defaults : progress :=
  mkProgress (VNum 0) (mkSystems false false) [].

(** [{ stars: this.stars, systems: this.systems, facts: this.facts }] *)
Definition snapshot (p : progress) : jsval :=
  VObj [ ("stars", stars p);
         ("systems", VObj [ ("heart", VBool (heart (systems p)));
                            ("lungs", VBool (lungs (systems p))) ]);
         ("facts", VArr (facts p)) ].

Section Codec.

Context `{JSON}.

(** [localStorage.getItem(storeKey) || "null"] *)
Definition getItem_or_null (st : storage) : string :=
  match st with
  | Some raw => if String.eqb raw "" then "null" else raw
  | None => "null"
  end.

Definition loadProgress (st : storage) : completion jsval :=
  try_catch (JSON_parse (getItem_or_null st)) (fun _ => Return VNull).

Definition saveProgress (p : jsval) (st : storage) : storage :=
  Some (JSON_stringify p).

Definition persist (this : progress) (st : storage) : storage :=
  saveProgress (snapshot this) st.

Definition load (this : progress) (st : storage) : completion progress :=
  let* p := loadProgress st in
  if negb (truthy p) then Return this else
  let* s := get p "stars" in
  let* sys := get p "systems" in
  let* h := get_opt sys "heart" in
  let* l := get_opt sys "lungs" in
  let* f := get p "facts" in
  Return (mkProgress (nullish s (VNum 0))
                     (mkSystems (truthy h) (truthy l))
                     (array_or_empty f)).

(** The slot holds no parsable JSON text: the key is absent, or the
    text under it makes [JSON.parse] raise. *)
Definition absent_or_unparsable (st : storage) : Prop :=
  match st with
  | None => True
  | Some raw => exists e, JSON_parse raw = Throw e
  end.

(** The codec carries the value [v] through the store: the text
    written for it is not empty and parses back to [v]. *)
Definition carries (v : jsval) : Prop :=
  JSON_stringify v <> "" /\ JSON_parse (JSON_stringify v) = Return v.

End Codec.

End Store.

(** ** Session state [G] *)

(** The global object [G].  [stars] and [facts] are typed here: the game
    only ever adds to stars by whole numbers and pushes strings; how
    they look after [G.load] from a foreign record is the matter of
    [Store.load]. [startTimestamp], [patient] and [playtimeSec] only
    feed the display. *)
Record G : Type := mkG {
  score : Z;
  health : Z;
  energy : Z;
  level : Z;
  powerMode : bool;
  powerTimer : Z;
  stars : Z;
  systems : Systems;
  facts : list string
}.

(** The object literal that initialises [G]. *)
Definition G0 : G :=
  mkG 0 100 0 1 false 0 0 (mkSystems false false) [].

Definition set_score (v : Z) (g : G) : G :=
  mkG v (health g) (energy g) (level g) (powerMode g) (powerTimer g)
      (stars g) (systems g) (facts g).
Definition set_health (v : Z) (g : G) : G :=
  mkG (score g) v (energy g) (level g) (powerMode g) (powerTimer g)
      (stars g) (systems g) (facts g).
Definition set_energy (v : Z) (g : G) : G :=
  mkG (score g) (health g) v (level g) (powerMode g) (powerTimer g)
      (stars g) (systems g) (facts g).
Definition set_level (v : Z) (g : G) : G :=
  mkG (score g) (health g) (energy g) v (powerMode g) (powerTimer g)
      (stars g) (systems g) (facts g).
Definition set_powerMode (v : bool) (g : G) : G :=
  mkG (score g) (health g) (energy g) (level g) v (powerTimer g)
      (stars g) (systems g) (facts g).
Definition set_powerTimer (v : Z) (g : G) : G :=
  mkG (score g) (health g) (energy g) (level g) (powerMode g) v
      (stars g) (systems g) (facts g).
Definition set_stars (v : Z) (g : G) : G :=
  mkG (score g) (health g) (energy g) (level g) (powerMode g) (powerTimer g)
      v (systems g) (facts g).
Definition set_systems (v : Systems) (g : G) : G :=
  mkG (score g) (health g) (energy g) (level g) (powerMode g) (powerTimer g)
      (stars g) v (facts g).
Definition set_facts (v : list string) (g : G) : G :=
  mkG (score g) (health g) (energy g) (level g) (powerMode g) (powerTimer g)
      (stars g) (systems g) v.

(** [resetStatsForLevel() { this.health = 100; this.energy = 0;
    this.powerMode = false; this.powerTimer = 0; }] *)
Definition resetStatsForLevel (g : G) : G :=
  set_powerTimer 0 (set_powerMode false (set_energy 0 (set_health 100 g))).

(** The persisted fields of a typed [G], as JavaScript values. *)
Definition progress_of (g : G) : Store.progress :=
  Store.mkProgress (VNum (stars g)) (systems g) (map VStr (facts g)).

(** The keys [setSystem] is called with. *)
Inductive SystemKey : Type := KHeart | KLungs.

(** [G.systems[k] = v] *)
Definition assign_system (k : SystemKey) (v : bool) (s : Systems) : Systems :=
  match k with
  | KHeart => mkSystems v (lungs s)
  | KLungs => mkSystems (heart s) v
  end.

(** [G.facts.includes(t)] *)
Definition includes (t : string) (l : list string) : bool :=
  existsb (String.eqb t) l.

(** The session: [G] together with the stored slot. *)
Record Session : Type := mkSession { sG : G; sStore : storage }.

Section Helpers.

Context `{JSON}.

(** [G.persist()] *)
Definition G_persist (s : Session) : Session :=
  mkSession (sG s) (Store.persist (progress_of (sG s)) (sStore s)).

(** [addStars = (n) => { G.stars = Math.max(0, G.stars + n); ...;
    G.persist(); }] *)
Definition addStars (n : Z) (s : Session) : Session :=
  G_persist (mkSession (set_stars (Z.max 0 (stars (sG s) + n)) (sG s)) (sStore s)).

(** [addFact = (t) => { if (!G.facts.includes(t)) { G.facts.push(t); ...;
    G.persist(); } }] *)
Definition addFact (t : string) (s : Session) : Session :=
  if negb (includes t (facts (sG s)))
  then G_persist (mkSession (set_facts (facts (sG s) ++ [t]) (sG s)) (sStore s))
  else s.

(** [setSystem = (k, v) => { G.systems[k] = v; ...; G.persist(); }] *)
Definition setSystem (k : SystemKey) (v : bool) (s : Session) : Session :=
  G_persist (mkSession (set_systems (assign_system k v (systems (sG s))) (sG s))
                       (sStore s)).

End Helpers.

(** ** Level scenes *)

Inductive Level : Type := CirculatoryLevel | LungsLevel.

(** [const maxE = 10] and [const maxE = 12], the cap of the orb
    handler. *)
Definition maxE (lvl : Level) : Z :=
  match lvl with CirculatoryLevel => 10 | LungsLevel => 12 end.

(** The literal of the completion test: [G.energy>=10] in the
    circulatory level, [G.energy>=12] in the lungs. *)
Definition goalE (lvl : Level) : Z :=
  match lvl with CirculatoryLevel => 10 | LungsLevel => 12 end.

Definition HIT_COOLDOWN_MS : Z := 650.
Definition JUMP_BUFFER_MS : Z := 140.
Definition COYOTE_TIME_MS : Z := 140.
Definition JUMP_VELOCITY : Z := -460.
(** The argument of every [activatePower] call. *)
Definition POWER_MS : Z := 6000.

Definition powerupScore (lvl : Level) : Z :=
  match lvl with CirculatoryLevel => 100 | LungsLevel => 120 end.
Definition virusScore (lvl : Level) : Z :=
  match lvl with CirculatoryLevel => 200 | LungsLevel => 220 end.
(** [0x5dade2] and [0x2ecc71] *)
Definition vulnerableTint (lvl : Level) : Z :=
  match lvl with CirculatoryLevel => 6139362 | LungsLevel => 3066993 end.
(** [0x66ffcc] *)
Definition playerPowerTint : Z := 6750156.

Definition fact1 (lvl : Level) : string :=
  match lvl with
  | CirculatoryLevel => "The heart pumps ~100,000 times per day."
  | LungsLevel => "Alveoli are tiny sacs where oxygen enters the blood."
  end.
Definition fact2 (lvl : Level) : string :=
  match lvl with
  | CirculatoryLevel =>
      "Valves prevent backflow, keeping blood moving the right way."
  | LungsLevel =>
      "The diaphragm helps pull air into the lungs by creating negative pressure."
  end.
Definition systemOf (lvl : Level) : SystemKey :=
  match lvl with CirculatoryLevel => KHeart | LungsLevel => KLungs end.

(** A sprite of the [viruses] group. Positions and velocities are left to
    the physics engine; contacts reach the model as events. *)
Record Virus : Type := mkVirus {
  active : bool;
  vulnerable : bool;
  tint : option Z
}.

Record Player : Type := mkPlayer {
  velocityX : Z;
  velocityY : Z;
  playerTint : option Z;
  body : bool
}.

(** The fields of a level scene that its handlers read or write.
    [orbs], [powerups] count the sprites left in the groups; [viruses]
    lists the members of the group; [paused] is the state of the physics
    world; [restartQueued] records a pending [scene.restart()]. *)
Record Scene : Type := mkScene {
  _completed : bool;
  lastHitAt : Z;
  _brain : bool;
  _virus : bool;
  player : Player;
  jumpBufferTime : Z;
  coyoteTime : Z;
  orbs : nat;
  powerups : nat;
  viruses : list Virus;
  paused : bool;
  restartQueued : bool
}.

Definition set_completed (v : bool) (s : Scene) : Scene :=
  mkScene v (lastHitAt s) (_brain s) (_virus s) (player s) (jumpBufferTime s)
          (coyoteTime s) (orbs s) (powerups s) (viruses s) (paused s)
          (restartQueued s).
Definition set_lastHitAt (v : Z) (s : Scene) : Scene :=
  mkScene (_completed s) v (_brain s) (_virus s) (player s) (jumpBufferTime s)
          (coyoteTime s) (orbs s) (powerups s) (viruses s) (paused s)
          (restartQueued s).
Definition set_brain (v : bool) (s : Scene) : Scene :=
  mkScene (_completed s) (lastHitAt s) v (_virus s) (player s)
          (jumpBufferTime s) (coyoteTime s) (orbs s) (powerups s) (viruses s)
          (paused s) (restartQueued s).
Definition set_virus (v : bool) (s : Scene) : Scene :=
  mkScene (_completed s) (lastHitAt s) (_brain s) v (player s)
          (jumpBufferTime s) (coyoteTime s) (orbs s) (powerups s) (viruses s)
          (paused s) (restartQueued s).
Definition set_player (v : Player) (s : Scene) : Scene :=
  mkScene (_completed s) (lastHitAt s) (_brain s) (_virus s) v
          (jumpBufferTime s) (coyoteTime s) (orbs s) (powerups s) (viruses s)
          (paused s) (restartQueued s).
Definition set_jumpBufferTime (v : Z) (s : Scene) : Scene :=
  mkScene (_completed s) (lastHitAt s) (_brain s) (_virus s) (player s) v
          (coyoteTime s) (orbs s) (powerups s) (viruses s) (paused s)
          (restartQueued s).
Definition set_coyoteTime (v : Z) (s : Scene) : Scene :=
  mkScene (_completed s) (lastHitAt s) (_brain s) (_virus s) (player s)
          (jumpBufferTime s) v (orbs s) (powerups s) (viruses s) (paused s)
          (restartQueued s).
Definition set_orbs (v : nat) (s : Scene) : Scene :=
  mkScene (_completed s) (lastHitAt s) (_brain s) (_virus s) (player s)
          (jumpBufferTime s) (coyoteTime s) v (powerups s) (viruses s)
          (paused s) (restartQueued s).
Definition set_powerups (v : nat) (s : Scene) : Scene :=
  mkScene (_completed s) (lastHitAt s) (_brain s) (_virus s) (player s)
          (jumpBufferTime s) (coyoteTime s) (orbs s) v (viruses s) (paused s)
          (restartQueued s).
Definition set_viruses (v : list Virus) (s : Scene) : Scene :=
  mkScene (_completed s) (lastHitAt s) (_brain s) (_virus s) (player s)
          (jumpBufferTime s) (coyoteTime s) (orbs s) (powerups s) v (paused s)
          (restartQueued s).
Definition set_paused (v : bool) (s : Scene) : Scene :=
  mkScene (_completed s) (lastHitAt s) (_brain s) (_virus s) (player s)
          (jumpBufferTime s) (coyoteTime s) (orbs s) (powerups s) (viruses s)
          v (restartQueued s).
Definition set_restartQueued (v : bool) (s : Scene) : Scene :=
  mkScene (_completed s) (lastHitAt s) (_brain s) (_virus s) (player s)
          (jumpBufferTime s) (coyoteTime s) (orbs s) (powerups s) (viruses s)
          (paused s) v.

Definition setVelocityX (v : Z) (p : Player) : Player :=
  mkPlayer v (velocityY p) (playerTint p) (body p).
Definition setVelocityY (v : Z) (p : Player) : Player :=
  mkPlayer (velocityX p) v (playerTint p) (body p).
Definition setPlayerTint (v : option Z) (p : Player) : Player :=
  mkPlayer (velocityX p) (velocityY p) v (body p).

(** A running level: the session and the scene on top of it. *)
Record World : Type := mkWorld { session : Session; scene : Scene }.

Definition wG (w : World) : G := sG (session w).
Definition wStore (w : World) : storage := sStore (session w).
Definition on_G (f : G -> G) (w : World) : World :=
  mkWorld (mkSession (f (wG w)) (wStore w)) (scene w).
Definition on_session (f : Session -> Session) (w : World) : World :=
  mkWorld (f (session w)) (scene w).
Definition on_scene (f : Scene -> Scene) (w : World) : World :=
  mkWorld (session w) (f (scene w)).

(** What one call of [update] sees of the outside: the scene clock
    [scene.time.now], the elapsed time [dt], whether the player's body
    rests on something, and the cursor keys held. *)
Record Input : Type := mkInput {
  now : Z;
  dt : Z;
  onGround : bool;
  leftDown : bool;
  rightDown : bool
}.

(** *** Player controller *)

(** [enableCursors]: [scene.jumpBufferTime = 0; scene.coyoteTime = 0]. *)
Definition enableCursors (s : Scene) : Scene :=
  set_coyoteTime 0 (set_jumpBufferTime 0 s).

(** The [keydown-UP] listener: [scene.jumpBufferTime = scene.time.now]. *)
Definition keydownUP (t : Z) (s : Scene) : Scene :=
  set_jumpBufferTime t s.

(** [scene.time.now - scene.jumpBufferTime <= scene.JUMP_BUFFER_MS] *)
Definition canUseBuffer (t : Z) (s : Scene) : bool :=
  t - jumpBufferTime s <=? JUMP_BUFFER_MS.

(** [scene.time.now - scene.coyoteTime <= scene.COYOTE_TIME_MS] *)
Definition hasCoyote (t : Z) (s : Scene) : bool :=
  t - coyoteTime s <=? COYOTE_TIME_MS.

(** The first half of [applyMoveAndJump]: ground contact is recorded,
    then the horizontal velocity is set from the keys. *)
Definition applyMove (i : Input) (s : Scene) : Scene :=
  let s1 := if onGround i then set_coyoteTime (now i) s else s in
  let speed := 200 in
  let s2 := set_player (setVelocityX 0 (player s1)) s1 in
  if leftDown i then set_player (setVelocityX (- speed) (player s2)) s2
  else if rightDown i then set_player (setVelocityX speed (player s2)) s2
  else s2.

Definition applyMoveAndJump (i : Input) (s : Scene) : Scene :=
  let s3 := applyMove i s in
  if canUseBuffer (now i) s3 && hasCoyote (now i) s3
  then set_coyoteTime 0
         (set_jumpBufferTime 0
            (set_player (setVelocityY JUMP_VELOCITY (player s3)) s3))
  else s3.

(** *** Level life cycle and overlap handlers *)

Section Levels.

Context `{JSON}.

(** A freshly spawned virus: [v.vulnerable = false], no tint. *)
Definition spawnVirus : Virus := mkVirus true false None.

(** [enablePlayer]: a sprite with a physics body, at rest. *)
Definition enablePlayer : Player := mkPlayer 0 0 None true.

(** [create()]: the stats of [G] are reset, the flags of the scene are
    cleared and the groups are filled (12 orbs and 2 viruses in the
    circulatory level, 14 orbs and 3 viruses in the lungs, one power-up
    each). A scene that starts has a running physics world. *)
Definition create (lvl : Level) (s : Session) : World :=
  mkWorld
    (mkSession (resetStatsForLevel (sG s)) (sStore s))
    (enableCursors
       (mkScene false 0 false false enablePlayer 0 0
          (match lvl with CirculatoryLevel => 12 | LungsLevel => 14 end)%nat
          1%nat
          (match lvl with
           | CirculatoryLevel => [spawnVirus; spawnVirus]
           | LungsLevel => [spawnVirus; spawnVirus; spawnVirus]
           end)
          false false)).

(** [activatePower(ms)] *)
Definition activatePower (lvl : Level) (ms : Z) (w : World) : World :=
  let w1 := on_G (fun g => set_powerTimer ms (set_powerMode true g)) w in
  on_scene (fun s =>
    set_viruses
      (map (fun v => mkVirus (active v) true (Some (vulnerableTint lvl)))
           (viruses s))
      (set_player (setPlayerTint (Some playerPowerTint) (player s)) s)) w1.

(** [endPower()] *)
Definition endPower (w : World) : World :=
  let w1 := on_G (fun g => set_powerTimer 0 (set_powerMode false g)) w in
  on_scene (fun s =>
    set_viruses
      (map (fun v => mkVirus (active v) false None) (viruses s))
      (set_player (setPlayerTint None (player s)) s)) w1.

(** Overlap of the player with an energy orb:
    [orb.destroy(); if (G.energy<maxE) G.energy+=1; G.score+=10;] *)
Definition orbOverlap (lvl : Level) (w : World) : World :=
  let w1 := on_scene (fun s => set_orbs (Nat.pred (orbs s)) s) w in
  let w2 := if energy (wG w1) <? maxE lvl
            then on_G (fun g => set_energy (energy g + 1) g) w1 else w1 in
  on_G (fun g => set_score (score g + 10) g) w2.

(** Overlap of the player with the power-up:
    [p.destroy(); this.activatePower(6000); this._brain=true;
     G.score+=100;] (120 in the lungs). *)
Definition powerupOverlap (lvl : Level) (w : World) : World :=
  let w1 := on_scene (fun s => set_powerups (Nat.pred (powerups s)) s) w in
  let w2 := activatePower lvl POWER_MS w1 in
  let w3 := on_scene (set_brain true) w2 in
  on_G (fun g => set_score (score g + powerupScore lvl) g) w3.

(** The [else] branch of the virus handler: damage under a cooldown.
    [if (this.time.now - this.lastHitAt < this.HIT_COOLDOWN_MS) return;
     this.lastHitAt = this.time.now; G.health -= 10;
     if (G.health<0) G.health=0;] *)
Definition takeHit (t : Z) (w : World) : World :=
  if t - lastHitAt (scene w) <? HIT_COOLDOWN_MS then w
  else
    let w1 := on_scene (set_lastHitAt t) w in
    let w2 := on_G (fun g => set_health (health g - 10) g) w1 in
    if health (wG w2) <? 0 then on_G (set_health 0) w2 else w2.

(** Overlap of the player with the [i]-th virus of the group at clock
    reading [t]. A destroyed virus leaves the group. *)
Definition virusOverlap (lvl : Level) (t : Z) (i : nat) (w : World) : World :=
  match viruses (scene w) !! i with
  | None => w
  | Some v =>
      if negb (active v) then w
      else if powerMode (wG w) && vulnerable v
      then
        let w1 := on_scene (fun s => set_viruses (delete i (viruses s)) s) w in
        let w2 := on_scene (set_virus true) w1 in
        on_G (fun g => set_score (score g + virusScore lvl) g) w2
      else takeHit t w
  end.

(** [complete()]: [if (this._completed) return; this._completed=true;
    this.physics.pause(); ... addStars(1); addFact(fact1);
    addFact(fact2); setSystem(..., true);] *)
Definition complete (lvl : Level) (w : World) : World :=
  if _completed (scene w) then w
  else
    let w1 := on_scene (fun s => set_paused true (set_completed true s)) w in
    on_session (fun s =>
      setSystem (systemOf lvl) true
        (addFact (fact2 lvl)
           (addFact (fact1 lvl)
              (addStars 1 s)))) w1.

(** [this.scene.restart()]: the scene manager queues the restart and
    runs it before the next frame. *)
Definition restart (w : World) : World :=
  on_scene (set_restartQueued true) w.

(** [if (G.powerMode) { G.powerTimer -= dt;
                        if (G.powerTimer<=0) this.endPower(); }] *)
Definition powerTick (d : Z) (w : World) : World :=
  if powerMode (wG w)
  then
    let w1 := on_G (fun g => set_powerTimer (powerTimer g - d) g) w in
    if powerTimer (wG w1) <=? 0 then endPower w1 else w1
  else w.

(** The completion test of [update]:
    [G.energy>=10 && (this._brain || this._virus)]. *)
Definition objectivesMet (lvl : Level) (w : World) : bool :=
  (energy (wG w) >=? goalE lvl) && (_brain (scene w) || _virus (scene w)).

(** [CirculatoryLevel.update(_, dt)]. The steering of the viruses only
    sets their velocities and is left to the physics engine. *)
Definition Circulatory_update (i : Input) (w : World) : World :=
  if _completed (scene w) then w
  else
    let w1 := powerTick (dt i) w in
    if negb (body (player (scene w1))) then w1
    else
      let w2 := on_scene (applyMoveAndJump i) w1 in
      let w3 := if objectivesMet CirculatoryLevel w2
                then complete CirculatoryLevel w2 else w2 in
      if health (wG w3) <=? 0 then restart w3 else w3.

(** [LungsLevel.update(_, dt)]: the same steps, the last two swapped. *)
Definition Lungs_update (i : Input) (w : World) : World :=
  if _completed (scene w) then w
  else
    let w1 := powerTick (dt i) w in
    if negb (body (player (scene w1))) then w1
    else
      let w2 := on_scene (applyMoveAndJump i) w1 in
      let w3 := if health (wG w2) <=? 0 then restart w2 else w2 in
      if objectivesMet LungsLevel w3 then complete LungsLevel w3 else w3.

Definition update (lvl : Level) (i : Input) (w : World) : World :=
  match lvl with
  | CirculatoryLevel => Circulatory_update i w
  | LungsLevel => Lungs_update i w
  end.

(** *** Runs of a level *)

(** What can happen to a running level: the scene manager carries out a
    queued restart; the physics step reports an overlap; the UP key goes
    down; the scene is updated. *)
Inductive Event : Type :=
| ERestart
| EOrb
| EPowerup
| EVirus (t : Z) (i : nat)
| EKeyUp (t : Z)
| ETick (i : Input).

(** A queued restart runs before anything else; overlaps need a running
    physics world and a sprite left to touch; elapsed time is never
    negative. *)
Definition enabled (e : Event) (w : World) : bool :=
  match e with
  | ERestart => restartQueued (scene w)
  | EOrb => negb (restartQueued (scene w)) && negb (paused (scene w))
            && (0 <? orbs (scene w))%nat
  | EPowerup => negb (restartQueued (scene w)) && negb (paused (scene w))
                && (0 <? powerups (scene w))%nat
  | EVirus _ _ => negb (restartQueued (scene w)) && negb (paused (scene w))
  | EKeyUp _ => negb (restartQueued (scene w))
  | ETick i => negb (restartQueued (scene w)) && (0 <=? dt i)
  end.

Definition fire (lvl : Level) (e : Event) (w : World) : World :=
  match e with
  | ERestart => create lvl (session w)
  | EOrb => orbOverlap lvl w
  | EPowerup => powerupOverlap lvl w
  | EVirus t i => virusOverlap lvl t i w
  | EKeyUp t => on_scene (keydownUP t) w
  | ETick i => update lvl i w
  end.

Fixpoint run (lvl : Level) (es : list Event) (w : World) : option World :=
  match es with
  | [] => Some w
  | e :: es' => if enabled e w then run lvl es' (fire lvl e w) else None
  end.

(** The states a level can be in, from its creation on session [s0]. *)
Definition reachable (lvl : Level) (s0 : Session) (w : World) : Prop :=
  exists es, run lvl es (create lvl s0) = Some w.

End Levels.

(** The condition under which the virus handler takes its [else]
    branch: the virus is in the group and active, and power mode is off
    or the virus is not vulnerable. *)
Definition hostile (w : World) (i : nat) : bool :=
  match viruses (scene w) !! i with
  | Some v => active v && negb (powerMode (wG w) && vulnerable v)
  | None => false
  end.

(** A series of contacts, each at a clock reading with a virus. *)
Definition contacts `{JSON} (lvl : Level) (cs : list (Z * nat)) (w : World)
  : World :=
  fold_left (fun w' c => virusOverlap lvl (fst c) (snd c) w') cs w.

(** *** Runs of the player controller *)

(** What reaches the controller: the UP key going down at clock
    reading [t], and a frame in which [applyMoveAndJump] runs. *)
Inductive KeyEvent : Type :=
| Press (t : Z)
| Frame (i : Input).

Definition control (e : KeyEvent) (s : Scene) : Scene :=
  match e with
  | Press t => keydownUP t s
  | Frame i => applyMoveAndJump i s
  end.

Definition controlAll (es : list KeyEvent) (s : Scene) : Scene :=
  fold_left (fun s' e => control e s') es s.

(** The guard of the jump, as [applyMoveAndJump] evaluates it. *)
Definition jumps (i : Input) (s : Scene) : bool :=
  canUseBuffer (now i) (applyMove i s) && hasCoyote (now i) (applyMove i s).

(** How many frames of a run take the jump, and how many presses it
    holds. *)
Fixpoint countJumps (es : list KeyEvent) (s : Scene) : nat :=
  match es with
  | [] => 0
  | e :: es' =>
      (match e with
       | Frame i => if jumps i s then 1 else 0
       | Press _ => 0
       end + countJumps es' (control e s))%nat
  end.

Fixpoint countPresses (es : list KeyEvent) : nat :=
  match es with
  | [] => 0
  | Press _ :: es' => S (countPresses es')
  | Frame _ :: es' => countPresses es'
  end.

(** Every frame of the run reads a clock past the buffer and coyote
    windows. The scene clock is the page clock; a level starts only
    after the title screen and a travel tween of 1800 ms. *)
Definition clockPastWindows (es : list KeyEvent) : Prop :=
  Forall (fun e => match e with
                   | Frame i => JUMP_BUFFER_MS < now i /\ COYOTE_TIME_MS < now i
                   | Press _ => True
                   end) es.

(** ** Hub: the body map *)

(** A hub button keeps its [pointerdown] listener only while enabled:
    [button] attaches [onClick] under [if (enabled)], and [setEnabled]
    removes all listeners before attaching it again under [if (e)]. *)
Record Hub : Type := mkHub {
  hSession : Session;
  heartListening : bool;
  lungsListening : bool;
  toasts : list string;
  started : option Level
}.

Definition NOTICE_EARN : string := "Earn a ⭐ by completing a level first.".
Definition NOTICE_REPAIRED : string := "Heart valve repaired! Lungs unlocked.".
Definition NOTICE_LOCKED : string := "Repair the Heart first (⭐1).".

Definition hG (h : Hub) : G := sG (hSession h).

Definition toast (text : string) (h : Hub) : Hub :=
  mkHub (hSession h) (heartListening h) (lungsListening h)
        (toasts h ++ [text]) (started h).

Definition hub_on_session (f : Session -> Session) (h : Hub) : Hub :=
  mkHub (f (hSession h)) (heartListening h) (lungsListening h)
        (toasts h) (started h).

Definition sceneStart (lvl : Level) (h : Hub) : Hub :=
  mkHub (hSession h) (heartListening h) (lungsListening h)
        (toasts h) (Some lvl).

(** [!G.systems.heart && G.stars >= 1], the enabling condition of the
    heart button. *)
Definition canRepair (g : G) : bool :=
  negb (heart (systems g)) && (stars g >=? 1).

(** [redraw]: both buttons are enabled anew from [G]. *)
Definition redraw (h : Hub) : Hub :=
  mkHub (hSession h) (canRepair (hG h)) (heart (systems (hG h)))
        (toasts h) (started h).

(** [BodyMapScene.create()], as far as the buttons go. *)
Definition BodyMap_create (s : Session) : Hub :=
  mkHub s (canRepair (sG s)) (heart (systems (sG s))) [] None.

Section HubHandlers.

Context `{JSON}.

(** The [onClick] of the heart button. *)
Definition heartOnClick (h : Hub) : Hub :=
  if heart (systems (hG h)) then h
  else if stars (hG h) <? 1 then toast NOTICE_EARN h
  else
    redraw
      (toast NOTICE_REPAIRED
         (hub_on_session
            (fun s => setSystem KHeart true
                        (addStars (-1) s)) h)).

(** The [onClick] of the lungs button. *)
Definition lungsOnClick (h : Hub) : Hub :=
  if negb (heart (systems (hG h))) then toast NOTICE_LOCKED h
  else
    sceneStart LungsLevel
      (hub_on_session (fun s => mkSession (set_level 2 (sG s)) (sStore s)) h).

(** The [onClick] of the replay button, which is always enabled. *)
Definition replayOnClick (h : Hub) : Hub :=
  sceneStart CirculatoryLevel
    (hub_on_session (fun s => mkSession (set_level 1 (sG s)) (sStore s)) h).

Inductive Button : Type := HeartBtn | LungsBtn | ReplayBtn.

(** A pointer press on a button runs the listener, if one is attached. *)
Definition pointerdown (b : Button) (h : Hub) : Hub :=
  match b with
  | HeartBtn => if heartListening h then heartOnClick h else h
  | LungsBtn => if lungsListening h then lungsOnClick h else h
  | ReplayBtn => replayOnClick h
  end.

(** The hub after a series of presses, from its creation on. *)
Definition hubAfter (bs : list Button) (s : Session) : Hub :=
  fold_left (fun h b => pointerdown b h) bs (BodyMap_create s).

End HubHandlers.

(** ** A reference JSON codec

    A printer and a fuel-driven parser for the JSON texts the game
    writes: [null], booleans, integers, strings with escaped quotes and
    backslashes, arrays and objects, without white space. It stands in
    for the platform codec where the store is run on concrete data. *)

Module RefJSON.

Definition QUOTE : ascii := "034"%char.
Definition BACKSLASH : ascii := "\"%char.

Fixpoint escape (s : string) : string :=
  match s with
  | EmptyString => EmptyString
  | String c rest =>
      if Ascii.eqb c QUOTE || Ascii.eqb c BACKSLASH
      then String BACKSLASH (String c (escape rest))
      else String c (escape rest)
  end.

Definition quote (s : string) : string :=
  String QUOTE (escape s ++ String QUOTE EmptyString)%string.

Definition string_of_Z (n : Z) : string :=
  DecimalString.NilZero.string_of_int (Z.to_int n).

Fixpoint stringify (v : jsval) : string :=
  match v with
  | VUndef | VNull => "null"
  | VBool true => "true"
  | VBool false => "false"
  | VNum n => string_of_Z n
  | VStr s => quote s
  | VArr items =>
      ("[" ++
       (fix go (l : list jsval) : string :=
          match l with
          | [] => ""
          | x :: rest =>
              match rest with
              | [] => stringify x
              | _ => stringify x ++ "," ++ go rest
              end
          end) items ++ "]")%string
  | VObj fields =>
      ("{" ++
       (fix go (l : list (string * jsval)) : string :=
          match l with
          | [] => ""
          | (k, x) :: rest =>
              match rest with
              | [] => quote k ++ ":" ++ stringify x
              | _ => quote k ++ ":" ++ stringify x ++ "," ++ go rest
              end
          end) fields ++ "}")%string
  end.

(** [strip p s]: the rest of [s] after the prefix [p]. *)
Fixpoint strip (p s : string) : option string :=
  match p, s with
  | EmptyString, _ => Some s
  | String a p', String b s' => if Ascii.eqb a b then strip p' s' else None
  | _, _ => None
  end.

(** The body of a string literal, after the opening quote. *)
Fixpoint parse_chars (s : string) : option (string * string) :=
  match s with
  | EmptyString => None
  | String c rest =>
      if Ascii.eqb c QUOTE then Some (EmptyString, rest)
      else if Ascii.eqb c BACKSLASH then
        match rest with
        | String d rest' =>
            match parse_chars rest' with
            | Some (body, r) => Some (String d body, r)
            | None => None
            end
        | EmptyString => None
        end
      else
        match parse_chars rest with
        | Some (body, r) => Some (String c body, r)
        | None => None
        end
  end.

Definition digit_of (c : ascii) : option Z :=
  let n := Z.of_nat (nat_of_ascii c) in
  if (48 <=? n) && (n <=? 57) then Some (n - 48) else None.

(** Reads a run of digits onto the accumulator; counts them. *)
Fixpoint parse_digits (acc : Z) (count : nat) (s : string)
  : Z * nat * string :=
  match s with
  | String c rest =>
      match digit_of c with
      | Some d => parse_digits (10 * acc + d) (S count) rest
      | None => (acc, count, s)
      end
  | EmptyString => (acc, count, s)
  end.

Definition parse_number (s : string) : option (jsval * string) :=
  match s with
  | String "-" rest =>
      match parse_digits 0 0 rest with
      | (_, O, _) => None
      | (n, _, r) => Some (VNum (- n), r)
      end
  | _ =>
      match parse_digits 0 0 s with
      | (_, O, _) => None
      | (n, _, r) => Some (VNum n, r)
      end
  end.

Fixpoint parse_value (fuel : nat) (s : string) : option (jsval * string) :=
  match fuel with
  | O => None
  | S fuel' =>
      match s with
      | String "n" _ =>
          match strip "null" s with Some r => Some (VNull, r) | None => None end
      | String "t" _ =>
          match strip "true" s with
          | Some r => Some (VBool true, r) | None => None
          end
      | String "f" _ =>
          match strip "false" s with
          | Some r => Some (VBool false, r) | None => None
          end
      | String "[" (String "]" r) => Some (VArr [], r)
      | String "[" rest =>
          match parse_items fuel' rest with
          | Some (items, r) => Some (VArr items, r)
          | None => None
          end
      | String "{" (String "}" r) => Some (VObj [], r)
      | String "{" rest =>
          match parse_members fuel' rest with
          | Some (fields, r) => Some (VObj fields, r)
          | None => None
          end
      | String c rest =>
          if Ascii.eqb c QUOTE then
            match parse_chars rest with
            | Some (body, r) => Some (VStr body, r)
            | None => None
            end
          else parse_number s
      | EmptyString => None
      end
  end
with parse_items (fuel : nat) (s : string) : option (list jsval * string) :=
  match fuel with
  | O => None
  | S fuel' =>
      match parse_value fuel' s with
      | Some (v, String "," r) =>
          match parse_items fuel' r with
          | Some (vs, r') => Some (v :: vs, r')
          | None => None
          end
      | Some (v, String "]" r) => Some ([v], r)
      | _ => None
      end
  end
with parse_members (fuel : nat) (s : string)
  : option (list (string * jsval) * string) :=
  match fuel with
  | O => None
  | S fuel' =>
      match s with
      | String c rest =>
          if Ascii.eqb c QUOTE then
            match parse_chars rest with
            | Some (k, String ":" r) =>
                match parse_value fuel' r with
                | Some (v, String "," r') =>
                    match parse_members fuel' r' with
                    | Some (kvs, r'') => Some ((k, v) :: kvs, r'')
                    | None => None
                    end
                | Some (v, String "}" r') => Some ([(k, v)], r')
                | _ => None
                end
            | _ => None
            end
          else None
      | EmptyString => None
      end
  end.

Definition parse (s : string) : completion jsval :=
  match parse_value (S (String.length s)) s with
  | Some (v, EmptyString) => Return v
  | _ => Throw SyntaxError
  end.

Definition codec : JSON := mkJSON parse stringify.

End RefJSON.

(** * Properties *)

(** ** The progress store *)

Section StoreProperties.

Context `{JSON}.

Lemma loadProgress_returns (st : storage) :
  exists p, Store.loadProgress st = Return p.
Proof.
  unfold Store.loadProgress.
  destruct (JSON_parse (Store.getItem_or_null st)) as [p | e]; simpl; eauto.
Qed.

Lemma get_truthy_returns (p : jsval) (k : string) :
  truthy p = true -> exists v, get p k = Return v.
Proof.
  destruct p; simpl; intros Hp; try discriminate; eauto.
Qed.

Lemma get_opt_returns (v : jsval) (k : string) :
  exists x, get_opt v k = Return x.
Proof.
  destruct v; simpl; eauto.
Qed.

Lemma load_returns (this : Store.progress) (st : storage) :
  exists r, Store.load this st = Return r.
Proof.
  unfold Store.load.
  destruct (loadProgress_returns st) as [p ->]; simpl.
  destruct (truthy p) eqn:Hp; simpl; [ | eauto ].
  destruct (get_truthy_returns p "stars" Hp) as [s ->]; simpl.
  destruct (get_truthy_returns p "systems" Hp) as [sys ->]; simpl.
  destruct (get_opt_returns sys "heart") as [h ->]; simpl.
  destruct (get_opt_returns sys "lungs") as [l ->]; simpl.
  destruct (get_truthy_returns p "facts" Hp) as [f ->]; simpl.
  eauto.
Qed.

Lemma loadProgress_bad_store (st : storage) :
  JSON_parse "null" = Return VNull ->
  Store.absent_or_unparsable st ->
  Store.loadProgress st = Return VNull.
Proof.
  intros Hnull Hbad. unfold Store.loadProgress.
  destruct st as [raw | ]; simpl.
  - destruct (String.eqb raw "") eqn:Hraw.
    + rewrite Hnull. reflexivity.
    + destruct Hbad as [e ->]. reflexivity.
  - rewrite Hnull. reflexivity.
Qed.

(** C9. Whatever the stored slot holds, [G.load] returns normally; and
    when the slot is absent or its text does not parse, [G.load] leaves
    the progress fields as they were, that is at the zero defaults of a
    fresh [G]. *)
Theorem load_never_throws_and_keeps_defaults :
  (forall (this : Store.progress) (st : storage),
      exists r, Store.load this st = Return r) /\
  (JSON_parse "null" = Return VNull ->
   forall st : storage,
     Store.absent_or_unparsable st ->
     Store.load Store.defaults st = Return Store.defaults /\
     forall this, Store.load this st = Return this).
Proof.
  split; [ exact load_returns | ].
  intros Hnull st Hbad.
  assert (Hany : forall this, Store.load this st = Return this).
  { intros this. unfold Store.load.
    rewrite (loadProgress_bad_store st Hnull Hbad). reflexivity. }
  split; [ apply Hany | exact Hany ].
Qed.

Lemma get_snapshot (p : Store.progress) :
  get (Store.snapshot p) "stars" = Return (Store.stars p) /\
  get (Store.snapshot p) "systems"
    = Return (VObj [ ("heart", VBool (heart (Store.systems p)));
                     ("lungs", VBool (lungs (Store.systems p))) ]) /\
  get (Store.snapshot p) "facts" = Return (VArr (Store.facts p)).
Proof.
  repeat split.
Qed.

(** C7. A progress snapshot of the game (an integer star count, two
    boolean system flags, a list of strings) that is persisted and then
    loaded into a fresh [G] comes back unchanged, provided the platform
    codec carries the written record through the store. *)
Theorem persist_then_load_roundtrip (g : G) (st : storage) :
  Store.carries (Store.snapshot (progress_of g)) ->
  Store.load Store.defaults
    (Store.persist (progress_of g) st)
  = Return (progress_of g).
Proof.
  destruct g as [sc he en lv pm pt n [h l] fs].
  intros [Hne Hback].
  unfold Store.load, Store.loadProgress, Store.persist, Store.saveProgress.
  simpl Store.getItem_or_null.
  destruct (String.eqb _ "") eqn:Hempty.
  { apply String.eqb_eq in Hempty. contradiction. }
  rewrite Hback. simpl.
  destruct h, l; reflexivity.
Qed.

End StoreProperties.

(** The reference codec on a stored record of the game. *)
Definition sampleG : G :=
  mkG 40 100 3 1 false 0 2 (mkSystems true false)
      ["The heart pumps ~100,000 times per day."].

Lemma persist_then_load_roundtrip_witness :
  @Store.load RefJSON.codec Store.defaults
    (@Store.persist RefJSON.codec (progress_of sampleG) None)
  = Return (progress_of sampleG).
Proof.
  apply (@persist_then_load_roundtrip RefJSON.codec sampleG None).
  split; [ vm_compute; discriminate | vm_compute; reflexivity ].
Defined.

Lemma load_never_throws_and_keeps_defaults_witness :
  @Store.load RefJSON.codec Store.defaults (Some "{oops")
  = Return Store.defaults.
Proof.
  apply (proj2 (@load_never_throws_and_keeps_defaults RefJSON.codec)).
  - vm_compute; reflexivity.
  - exists SyntaxError. vm_compute; reflexivity.
Defined.

(** Records that did not come from the game load without an error: a
    stored array has none of the three fields; a record with a string
    for [stars], [null] for [systems] and a number for [facts] keeps the
    string and falls back on the other two. *)
Example load_stored_array :
  @Store.load RefJSON.codec Store.defaults (Some "[1,2]")
  = Return Store.defaults.
Proof.
  vm_compute. reflexivity.
Qed.

Example load_foreign_record :
  @Store.load RefJSON.codec Store.defaults
    (Some (RefJSON.stringify
             (VObj [ ("stars", VStr "x"); ("systems", VNull);
                     ("facts", VNum 3) ])))
  = Return (Store.mkProgress (VStr "x") (mkSystems false false) []).
Proof.
  vm_compute. reflexivity.
Qed.

(** ** Level runs: what each handler touches *)

Section LevelProperties.

Context `{JSON}.

(** The progress fields of [G] and the stored slot. *)
Definition sameProgress (w w' : World) : Prop :=
  stars (wG w') = stars (wG w) /\
  systems (wG w') = systems (wG w) /\
  facts (wG w') = facts (wG w) /\
  wStore w' = wStore w.

(** The per-level stats and flags that decide completion and failure. *)
Definition sameObjectives (w w' : World) : Prop :=
  health (wG w') = health (wG w) /\
  energy (wG w') = energy (wG w) /\
  score (wG w') = score (wG w) /\
  _brain (scene w') = _brain (scene w) /\
  _virus (scene w') = _virus (scene w) /\
  _completed (scene w') = _completed (scene w) /\
  paused (scene w') = paused (scene w) /\
  restartQueued (scene w') = restartQueued (scene w) /\
  lastHitAt (scene w') = lastHitAt (scene w) /\
  body (player (scene w')) = body (player (scene w)).

Ltac break_world w :=
  destruct w as [[[sc he en lv pm pt sr [hs ls] fs] st]
                 [cp lh br vr [vx vy ptint bd] jb ct ob pu vs pa rq]].

Lemma powerTick_frame (d : Z) (w : World) :
  sameProgress w (powerTick d w) /\ sameObjectives w (powerTick d w).
Proof.
  break_world w. unfold powerTick, sameProgress, sameObjectives; simpl.
  destruct pm; simpl; [ destruct (pt - d <=? 0); simpl | ]; repeat split.
Qed.

Lemma powerTick_power (d : Z) (w : World) :
  powerMode (wG w) = true ->
  (0 < powerTimer (wG w) - d ->
   powerMode (wG (powerTick d w)) = true /\
   powerTimer (wG (powerTick d w)) = powerTimer (wG w) - d /\
   viruses (scene (powerTick d w)) = viruses (scene w)) /\
  (powerTimer (wG w) - d <= 0 ->
   powerMode (wG (powerTick d w)) = false /\
   powerTimer (wG (powerTick d w)) = 0 /\
   playerTint (player (scene (powerTick d w))) = None /\
   Forall (fun v => vulnerable v = false /\ tint v = None)
          (viruses (scene (powerTick d w)))).
Proof.
  break_world w. unfold powerTick; simpl. intros ->; simpl.
  split; intros Hd.
  - destruct (pt - d <=? 0) eqn:E; [ lia | ]. simpl. repeat split.
  - destruct (pt - d <=? 0) eqn:E; [ | lia ]. simpl. repeat split.
    clear E. induction vs as [ | v vs' IH]; simpl; constructor; auto.
Qed.

Lemma powerTick_off (d : Z) (w : World) :
  powerMode (wG w) = false -> powerTick d w = w.
Proof.
  unfold powerTick. intros ->. reflexivity.
Qed.

Lemma applyMoveAndJump_frame (i : Input) (w : World) :
  wG (on_scene (applyMoveAndJump i) w) = wG w /\
  sameProgress w (on_scene (applyMoveAndJump i) w) /\
  sameObjectives w (on_scene (applyMoveAndJump i) w).
Proof.
  break_world w.
  unfold applyMoveAndJump, applyMove, canUseBuffer, hasCoyote,
    sameProgress, sameObjectives; simpl.
  destruct (onGround i), (leftDown i), (rightDown i); simpl;
    match goal with
    | |- context [if ?c then _ else _] => destruct c
    end; simpl; repeat split.
Qed.

Lemma includes_app (t : string) (l1 l2 : list string) :
  includes t (l1 ++ l2) = includes t l1 || includes t l2.
Proof.
  unfold includes. apply existsb_app.
Qed.

Lemma includes_last (t : string) (l : list string) :
  includes t (l ++ [t]) = true.
Proof.
  rewrite includes_app. simpl. rewrite String.eqb_refl.
  destruct (includes t l); reflexivity.
Qed.

(** The stats of [G] that the progress helpers leave alone. *)
Definition sameStats (g g' : G) : Prop :=
  score g' = score g /\ health g' = health g /\ energy g' = energy g /\
  level g' = level g /\ powerMode g' = powerMode g /\
  powerTimer g' = powerTimer g.

Lemma sameStats_trans (g1 g2 g3 : G) :
  sameStats g1 g2 -> sameStats g2 g3 -> sameStats g1 g3.
Proof.
  unfold sameStats. intuition congruence.
Qed.

Lemma addStars_spec (n : Z) (s : Session) :
  stars (sG (addStars n s)) = Z.max 0 (stars (sG s) + n) /\
  systems (sG (addStars n s)) = systems (sG s) /\
  facts (sG (addStars n s)) = facts (sG s) /\
  sameStats (sG s) (sG (addStars n s)) /\
  sStore (addStars n s)
  = Some (JSON_stringify (Store.snapshot (progress_of (sG (addStars n s))))).
Proof.
  destruct s as [g st]. unfold sameStats. repeat split.
Qed.

Lemma addFact_spec (t : string) (s : Session) :
  stars (sG (addFact t s)) = stars (sG s) /\
  systems (sG (addFact t s)) = systems (sG s) /\
  facts (sG (addFact t s))
  = (if includes t (facts (sG s)) then facts (sG s)
     else (facts (sG s) ++ [t])%list) /\
  sameStats (sG s) (sG (addFact t s)).
Proof.
  destruct s as [g st]. unfold addFact, sameStats. simpl.
  destruct (includes t (facts g)); simpl; repeat split.
Qed.

Lemma addFact_includes (t : string) (s : Session) :
  includes t (facts (sG (addFact t s))) = true /\
  forall u, includes u (facts (sG s)) = true ->
            includes u (facts (sG (addFact t s))) = true.
Proof.
  destruct (addFact_spec t s) as (_ & _ & -> & _).
  destruct (includes t (facts (sG s))) eqn:Ht.
  - split; auto.
  - split; [ apply includes_last | ].
    intros u Hu. rewrite includes_app, Hu. reflexivity.
Qed.

Lemma setSystem_spec (k : SystemKey) (v : bool) (s : Session) :
  stars (sG (setSystem k v s)) = stars (sG s) /\
  systems (sG (setSystem k v s)) = assign_system k v (systems (sG s)) /\
  facts (sG (setSystem k v s)) = facts (sG s) /\
  sameStats (sG s) (sG (setSystem k v s)) /\
  sStore (setSystem k v s)
  = Some (JSON_stringify
            (Store.snapshot (progress_of (sG (setSystem k v s))))).
Proof.
  destruct s as [g st]. unfold sameStats. repeat split.
Qed.

(** The three helper calls of [complete], in its order. *)
Definition grant (lvl : Level) (s : Session) : Session :=
  setSystem (systemOf lvl) true
    (addFact (fact2 lvl) (addFact (fact1 lvl) (addStars 1 s))).

Lemma complete_live (lvl : Level) (w : World) :
  _completed (scene w) = false ->
  complete lvl w
  = mkWorld (grant lvl (session w))
            (set_paused true (set_completed true (scene w))).
Proof.
  intros Hc. unfold complete. rewrite Hc. reflexivity.
Qed.

Lemma grant_spec (lvl : Level) (s : Session) :
  stars (sG (grant lvl s)) = Z.max 0 (stars (sG s) + 1) /\
  systems (sG (grant lvl s))
  = assign_system (systemOf lvl) true (systems (sG s)) /\
  includes (fact1 lvl) (facts (sG (grant lvl s))) = true /\
  includes (fact2 lvl) (facts (sG (grant lvl s))) = true /\
  (forall t, includes t (facts (sG s)) = true ->
             includes t (facts (sG (grant lvl s))) = true) /\
  sameStats (sG s) (sG (grant lvl s)) /\
  sStore (grant lvl s)
  = Some (JSON_stringify (Store.snapshot (progress_of (sG (grant lvl s))))).
Proof.
  unfold grant.
  set (s1 := addStars 1 s).
  set (s2 := addFact (fact1 lvl) s1).
  set (s3 := addFact (fact2 lvl) s2).
  destruct (addStars_spec 1 s) as (A1 & A2 & A3 & A4 & _).
  destruct (addFact_spec (fact1 lvl) s1) as (B1 & B2 & _ & B4).
  destruct (addFact_includes (fact1 lvl) s1) as (B5 & B6).
  destruct (addFact_spec (fact2 lvl) s2) as (C1 & C2 & _ & C4).
  destruct (addFact_includes (fact2 lvl) s2) as (C5 & C6).
  destruct (setSystem_spec (systemOf lvl) true s3) as (D1 & D2 & D3 & D4 & D5).
  fold s1 in A1, A2, A3, A4. fold s2 in B1, B2, B4, B5, B6.
  fold s3 in C1, C2, C4, C5, C6.
  refine (conj _ (conj _ (conj _ (conj _ (conj _ (conj _ _)))))).
  - rewrite D1, C1, B1, A1. reflexivity.
  - rewrite D2, C2, B2, A2. reflexivity.
  - rewrite D3. apply C6, B5.
  - rewrite D3. apply C5.
  - intros t Ht. rewrite D3. apply C6, B6. rewrite A3. exact Ht.
  - eauto using sameStats_trans.
  - exact D5.
Qed.

(** What [complete] grants, on a level not completed before. *)
Definition rewardGranted (lvl : Level) (w w' : World) : Prop :=
  paused (scene w') = true /\
  stars (wG w') = Z.max 0 (stars (wG w) + 1) /\
  systems (wG w') = assign_system (systemOf lvl) true (systems (wG w)) /\
  includes (fact1 lvl) (facts (wG w')) = true /\
  includes (fact2 lvl) (facts (wG w')) = true /\
  (forall t, includes t (facts (wG w)) = true ->
             includes t (facts (wG w')) = true) /\
  wStore w'
  = Some (JSON_stringify (Store.snapshot (progress_of (wG w')))).

Lemma complete_grants (lvl : Level) (w : World) :
  _completed (scene w) = false ->
  _completed (scene (complete lvl w)) = true /\
  rewardGranted lvl w (complete lvl w).
Proof.
  intros Hc. rewrite (complete_live lvl w Hc).
  destruct (grant_spec lvl (session w)) as (G1 & G2 & G3 & G4 & G5 & _ & G7).
  unfold rewardGranted, wG, wStore. simpl. repeat split; assumption.
Qed.

Lemma complete_frame (lvl : Level) (w : World) :
  sameStats (wG w) (wG (complete lvl w)) /\
  _brain (scene (complete lvl w)) = _brain (scene w) /\
  _virus (scene (complete lvl w)) = _virus (scene w) /\
  restartQueued (scene (complete lvl w)) = restartQueued (scene w) /\
  lastHitAt (scene (complete lvl w)) = lastHitAt (scene w) /\
  viruses (scene (complete lvl w)) = viruses (scene w) /\
  player (scene (complete lvl w)) = player (scene w).
Proof.
  destruct (_completed (scene w)) eqn:Hc.
  - unfold complete. rewrite Hc. unfold sameStats. repeat split.
  - rewrite (complete_live lvl w Hc).
    destruct (grant_spec lvl (session w)) as (_ & _ & _ & _ & _ & G6 & _).
    unfold wG. simpl. repeat split; try apply G6.
Qed.

Lemma restart_complete (lvl : Level) (w : World) :
  complete lvl (restart w) = restart (complete lvl w).
Proof.
  break_world w. unfold complete, restart; simpl.
  destruct cp; reflexivity.
Qed.

(** Both levels run the same update on a level that is live: the power
    timer, the controller, then completion and failure, which do not
    interfere. *)
Lemma update_live (lvl : Level) (i : Input) (w : World) :
  _completed (scene w) = false ->
  body (player (scene w)) = true ->
  update lvl i w =
  let w2 := on_scene (applyMoveAndJump i) (powerTick (dt i) w) in
  let w3 := if objectivesMet lvl w then complete lvl w2 else w2 in
  if health (wG w) <=? 0 then restart w3 else w3.
Proof.
  intros Hc Hb.
  destruct (powerTick_frame (dt i) w) as [_ Hp].
  destruct (applyMoveAndJump_frame i (powerTick (dt i) w)) as [Hg [_ Ha]].
  unfold sameObjectives in Hp, Ha.
  destruct Hp as (Hh1 & He1 & _ & Hb1 & Hv1 & Hc1 & _ & _ & _ & Hbd1).
  destruct Ha as (Hh2 & He2 & _ & Hb2 & Hv2 & Hc2 & _).
  assert (Hmet : objectivesMet lvl
                   (on_scene (applyMoveAndJump i) (powerTick (dt i) w))
                 = objectivesMet lvl w).
  { unfold objectivesMet. rewrite He2, He1, Hb2, Hb1, Hv2, Hv1. reflexivity. }
  destruct lvl; simpl;
    unfold Circulatory_update, Lungs_update;
    rewrite Hc, Hbd1, Hb; simpl.
  - rewrite Hmet.
    destruct (objectivesMet CirculatoryLevel w).
    + destruct (complete_frame CirculatoryLevel
                  (on_scene (applyMoveAndJump i) (powerTick (dt i) w)))
        as ((_ & -> & _) & _). rewrite Hh2, Hh1. reflexivity.
    + rewrite Hh2, Hh1. reflexivity.
  - rewrite Hh2, Hh1.
    destruct (health (wG w) <=? 0).
    + assert (Hmet' : objectivesMet LungsLevel
                (restart (on_scene (applyMoveAndJump i) (powerTick (dt i) w)))
              = objectivesMet LungsLevel w).
      { rewrite <- Hmet. reflexivity. }
      rewrite Hmet'. destruct (objectivesMet LungsLevel w);
        [ apply restart_complete | reflexivity ].
    + rewrite Hmet. reflexivity.
Qed.

Lemma update_completed (lvl : Level) (i : Input) (w : World) :
  _completed (scene w) = true -> update lvl i w = w.
Proof.
  intros Hc. destruct lvl; simpl;
    unfold Circulatory_update, Lungs_update; rewrite Hc; reflexivity.
Qed.

(** ** Invariants of a level run *)

Record Inv0 (lvl : Level) (w : World) : Prop := mkInv0 {
  inv_health : 0 <= health (wG w) <= 100;
  inv_tens : health (wG w) mod 10 = 0;
  inv_energy : 0 <= energy (wG w) <= maxE lvl;
  inv_timer : 0 <= powerTimer (wG w) <= POWER_MS;
  inv_power_on : powerMode (wG w) = true -> 0 < powerTimer (wG w);
  inv_power_off : powerMode (wG w) = false -> powerTimer (wG w) = 0;
  inv_paused : paused (scene w) = _completed (scene w);
  inv_completed : _completed (scene w) = true -> objectivesMet lvl w = true;
  inv_body : body (player (scene w)) = true
}.

(** With no health left, the level is still live or about to restart. *)
Definition Inv (lvl : Level) (w : World) : Prop :=
  Inv0 lvl w /\
  (health (wG w) = 0 ->
   _completed (scene w) = false \/ restartQueued (scene w) = true).

Lemma create_Inv (lvl : Level) (s : Session) : Inv lvl (create lvl s).
Proof.
  destruct s as [g st]. split.
  - constructor; simpl; try (destruct lvl; simpl; lia);
      try discriminate; try reflexivity; unfold POWER_MS; try lia.
  - simpl. auto.
Qed.

Lemma orbOverlap_Inv (lvl : Level) (w : World) :
  paused (scene w) = false -> Inv lvl w -> Inv lvl (orbOverlap lvl w).
Proof.
  break_world w. intros Hp [[Hh Hm He Ht Hon Hoff Hpa Hc Hb] Hd].
  simpl in *. subst pa cp.
  unfold orbOverlap; simpl.
  destruct (en <? maxE lvl) eqn:E; simpl;
    (split; [ constructor | ]); simpl; auto; try discriminate; lia.
Qed.

Lemma powerupOverlap_Inv (lvl : Level) (w : World) :
  paused (scene w) = false -> Inv lvl w -> Inv lvl (powerupOverlap lvl w).
Proof.
  break_world w. intros Hp [[Hh Hm He Ht Hon Hoff Hpa Hc Hb] Hd].
  simpl in *. subst pa cp.
  unfold powerupOverlap; simpl.
  (split; [ constructor | ]); simpl; auto; try discriminate;
    unfold POWER_MS; lia.
Qed.

Lemma takeHit_Inv (lvl : Level) (t : Z) (w : World) :
  paused (scene w) = false -> Inv lvl w -> Inv lvl (takeHit t w).
Proof.
  break_world w. intros Hp [[Hh Hm He Ht Hon Hoff Hpa Hc Hb] Hd].
  simpl in *. subst pa cp.
  unfold takeHit; simpl.
  destruct (t - lh <? HIT_COOLDOWN_MS); simpl.
  - (split; [ constructor | ]); simpl; auto.
  - destruct (he - 10 <? 0) eqn:E; simpl;
      (split; [ constructor | ]); simpl; auto; try discriminate; try lia.
    Z.to_euclidean_division_equations. lia.
Qed.

Lemma virusOverlap_Inv (lvl : Level) (t : Z) (i : nat) (w : World) :
  paused (scene w) = false -> Inv lvl w -> Inv lvl (virusOverlap lvl t i w).
Proof.
  intros Hp HI. unfold virusOverlap.
  destruct (viruses (scene w) !! i) as [v | ]; [ | exact HI ].
  destruct (negb (active v)); [ exact HI | ].
  destruct (powerMode (wG w) && vulnerable v); [ | apply takeHit_Inv; auto ].
  clear v. break_world w. destruct HI as [[Hh Hm He Ht Hon Hoff Hpa Hc Hb] Hd].
  simpl in *. subst pa cp.
  (split; [ constructor | ]); simpl; auto; discriminate.
Qed.

Lemma keydownUP_Inv (lvl : Level) (t : Z) (w : World) :
  Inv lvl w -> Inv lvl (on_scene (keydownUP t) w).
Proof.
  break_world w. intros [[Hh Hm He Ht Hon Hoff Hpa Hc Hb] Hd].
  (split; [ constructor | ]); simpl in *; auto.
Qed.

Lemma powerTick_Inv0 (lvl : Level) (d : Z) (w : World) :
  0 <= d -> Inv0 lvl w -> Inv0 lvl (powerTick d w).
Proof.
  break_world w. intros Hd0 [Hh Hm He Ht Hon Hoff Hpa Hc Hb].
  simpl in *. unfold powerTick; simpl.
  destruct pm; simpl; [ | constructor; simpl; auto ].
  specialize (Hon eq_refl).
  destruct (pt - d <=? 0) eqn:E; simpl;
    constructor; simpl; auto; try discriminate; unfold POWER_MS in *; lia.
Qed.

Lemma applyMoveAndJump_Inv0 (lvl : Level) (i : Input) (w : World) :
  Inv0 lvl w -> Inv0 lvl (on_scene (applyMoveAndJump i) w).
Proof.
  intros [Hh Hm He Ht Hon Hoff Hpa Hc Hb].
  destruct (applyMoveAndJump_frame i w) as (Hg & _ & Hs).
  destruct Hs as (_ & _ & _ & Hbr & Hvr & Hcp & Hps & Hrq & _ & Hbd).
  constructor; rewrite ?Hg, ?Hcp, ?Hps, ?Hrq, ?Hbd; auto.
  intros Hc'. specialize (Hc Hc'). unfold objectivesMet in *.
  rewrite Hg, Hbr, Hvr. exact Hc.
Qed.

Lemma complete_Inv0 (lvl : Level) (w : World) :
  objectivesMet lvl w = true -> Inv0 lvl w -> Inv0 lvl (complete lvl w).
Proof.
  intros Hm HI.
  destruct (_completed (scene w)) eqn:Hc.
  { unfold complete. rewrite Hc. exact HI. }
  destruct (complete_grants lvl w Hc) as (Hcd & Hpa & _).
  destruct (complete_frame lvl w)
    as ((_ & Eh & Ee & _ & Em & Et) & Eb & Ev & _ & _ & _ & Ep).
  destruct HI as [Hh Hm10 He Ht Hon Hoff Hpa0 Hcc Hb].
  constructor; rewrite ?Eh, ?Ee, ?Em, ?Et, ?Ep; auto.
  - rewrite Hpa, Hcd. reflexivity.
  - intros _. unfold objectivesMet. rewrite Ee, Eb, Ev. exact Hm.
Qed.

Lemma restart_Inv0 (lvl : Level) (w : World) :
  Inv0 lvl w -> Inv0 lvl (restart w).
Proof.
  break_world w. intros [Hh Hm He Ht Hon Hoff Hpa Hc Hb].
  constructor; simpl in *; auto.
Qed.

(** The state before completion and failure are looked at. *)
Definition afterController (i : Input) (w : World) : World :=
  on_scene (applyMoveAndJump i) (powerTick (dt i) w).

Lemma afterController_frame (i : Input) (w : World) :
  sameProgress w (afterController i w) /\
  sameObjectives w (afterController i w).
Proof.
  unfold afterController.
  destruct (applyMoveAndJump_frame i (powerTick (dt i) w)) as (_ & P2 & O2).
  destruct (powerTick_frame (dt i) w) as (P1 & O1).
  unfold sameProgress, sameObjectives in *.
  repeat split; intuition congruence.
Qed.

Lemma afterController_objectives (lvl : Level) (i : Input) (w : World) :
  objectivesMet lvl (afterController i w) = objectivesMet lvl w.
Proof.
  destruct (afterController_frame i w) as (_ & (_ & E & _ & B & V & _)).
  unfold objectivesMet. rewrite E, B, V. reflexivity.
Qed.

Lemma update_Inv (lvl : Level) (i : Input) (w : World) :
  0 <= dt i -> Inv lvl w -> Inv lvl (update lvl i w).
Proof.
  intros Hd HI0.
  destruct (_completed (scene w)) eqn:Hc.
  { rewrite update_completed by exact Hc. exact HI0. }
  destruct HI0 as [HI HD].
  rewrite update_live by (first [ exact Hc | exact (inv_body _ _ HI) ]).
  fold (afterController i w). cbv zeta.
  set (w3 := if objectivesMet lvl w
             then complete lvl (afterController i w)
             else afterController i w).
  assert (HI2 : Inv0 lvl (afterController i w))
    by (apply applyMoveAndJump_Inv0, powerTick_Inv0; assumption).
  assert (HI3 : Inv0 lvl w3).
  { unfold w3. destruct (objectivesMet lvl w) eqn:Hm; [ | exact HI2 ].
    apply complete_Inv0; [ | exact HI2 ].
    rewrite afterController_objectives. exact Hm. }
  assert (Hh3 : health (wG w3) = health (wG w)).
  { destruct (afterController_frame i w) as (_ & (Hh & _)).
    unfold w3. destruct (objectivesMet lvl w); [ | exact Hh ].
    destruct (complete_frame lvl (afterController i w)) as ((_ & -> & _) & _).
    exact Hh. }
  destruct (health (wG w) <=? 0) eqn:Hdead.
  - split; [ apply restart_Inv0; exact HI3 | ].
    intros _. right. reflexivity.
  - split; [ exact HI3 | ]. rewrite Hh3. lia.
Qed.

Lemma fire_Inv (lvl : Level) (e : Event) (w : World) :
  enabled e w = true -> Inv lvl w -> Inv lvl (fire lvl e w).
Proof.
  destruct e as [ | | | t i | t | i]; simpl; intros He HI.
  - apply create_Inv.
  - apply orbOverlap_Inv; [ | exact HI ].
    destruct (paused (scene w)); [ | reflexivity ].
    rewrite andb_false_r in He. discriminate.
  - apply powerupOverlap_Inv; [ | exact HI ].
    destruct (paused (scene w)); [ | reflexivity ].
    rewrite andb_false_r in He. discriminate.
  - apply virusOverlap_Inv; [ | exact HI ].
    destruct (paused (scene w)); [ | reflexivity ].
    rewrite andb_false_r in He. discriminate.
  - apply keydownUP_Inv. exact HI.
  - apply update_Inv; [ | exact HI ].
    apply andb_prop in He. destruct He as [_ He]. lia.
Qed.

Lemma run_Inv (lvl : Level) (es : list Event) (w w' : World) :
  Inv lvl w -> run lvl es w = Some w' -> Inv lvl w'.
Proof.
  revert w. induction es as [ | e es IH]; simpl; intros w HI Hrun.
  - injection Hrun as <-. exact HI.
  - destruct (enabled e w) eqn:He; [ | discriminate ].
    apply (IH (fire lvl e w)); [ apply fire_Inv; assumption | exact Hrun ].
Qed.

Lemma reachable_Inv (lvl : Level) (s0 : Session) (w : World) :
  reachable lvl s0 w -> Inv lvl w.
Proof.
  intros [es Hrun]. apply (run_Inv lvl es (create lvl s0)); [ | exact Hrun ].
  apply create_Inv.
Qed.

(** ** Score: kept by the reset, never stored *)

Lemma restart_G (w : World) : wG (restart w) = wG w.
Proof.
  reflexivity.
Qed.

Lemma update_score (lvl : Level) (i : Input) (w : World) :
  score (wG (update lvl i w)) = score (wG w).
Proof.
  destruct (powerTick_frame (dt i) w) as (_ & (_ & _ & S1 & _)).
  destruct (applyMoveAndJump_frame i (powerTick (dt i) w))
    as (_ & _ & (_ & _ & S2 & _)).
  destruct lvl; simpl; unfold Circulatory_update, Lungs_update;
    destruct (_completed (scene w)); try reflexivity;
    destruct (negb (body (player (scene (powerTick (dt i) w)))));
    try exact S1;
    repeat match goal with
      | |- context [if ?c then _ else _] => destruct c
      | |- context [complete ?l ?x] =>
          let E := fresh in
          destruct (complete_frame l x) as ((E & _) & _); rewrite E; clear E
      | |- context [wG (restart ?x)] => rewrite (restart_G x)
      end; congruence.
Qed.

Lemma takeHit_score (t : Z) (w : World) :
  score (wG (takeHit t w)) = score (wG w).
Proof.
  break_world w. unfold takeHit; simpl.
  destruct (t - lh <? HIT_COOLDOWN_MS); simpl; [ reflexivity | ].
  destruct (he - 10 <? 0); reflexivity.
Qed.

Lemma fire_score (lvl : Level) (e : Event) (w : World) :
  score (wG w) <= score (wG (fire lvl e w)).
Proof.
  destruct e as [ | | | t i | t | i]; simpl.
  - break_world w. simpl. lia.
  - break_world w. unfold orbOverlap; simpl.
    destruct (en <? maxE lvl); simpl; lia.
  - break_world w. unfold powerupOverlap; simpl. destruct lvl; simpl; lia.
  - unfold virusOverlap.
    destruct (viruses (scene w) !! i) as [v | ]; [ | lia ].
    destruct (negb (active v)); [ lia | ].
    destruct (powerMode (wG w) && vulnerable v).
    + break_world w. simpl. destruct lvl; simpl; lia.
    + rewrite takeHit_score. lia.
  - unfold wG, on_scene. simpl. lia.
  - rewrite update_score. lia.
Qed.

(** C10. [resetStatsForLevel] sets health to 100, energy to 0 and power
    mode off with timer 0, and leaves the score (and level, stars,
    systems, facts) alone. The reset is performed at every level entry
    ([create] begins with it) and by every restart; a tick that finds
    the health at 0 in a level that is not completed queues the
    restart, and after it the stats are reset while the score is the
    one from before the failure. No event of a level run ever lowers
    the score, and the record that [persist] writes does not depend on
    it. *)
Theorem reset_keeps_score_and_score_is_not_persisted :
  (forall g : G,
      health (resetStatsForLevel g) = 100 /\
      energy (resetStatsForLevel g) = 0 /\
      powerMode (resetStatsForLevel g) = false /\
      powerTimer (resetStatsForLevel g) = 0 /\
      score (resetStatsForLevel g) = score g /\
      level (resetStatsForLevel g) = level g /\
      progress_of (resetStatsForLevel g) = progress_of g) /\
  (forall (lvl : Level) (s : Session),
      wG (create lvl s) = resetStatsForLevel (sG s) /\
      health (wG (create lvl s)) = 100 /\
      energy (wG (create lvl s)) = 0 /\
      powerMode (wG (create lvl s)) = false /\
      powerTimer (wG (create lvl s)) = 0 /\
      score (wG (create lvl s)) = score (sG s)) /\
  (forall (lvl : Level) (w : World),
      wG (fire lvl ERestart w) = resetStatsForLevel (wG w) /\
      health (wG (fire lvl ERestart w)) = 100 /\
      energy (wG (fire lvl ERestart w)) = 0 /\
      powerMode (wG (fire lvl ERestart w)) = false /\
      powerTimer (wG (fire lvl ERestart w)) = 0 /\
      score (wG (fire lvl ERestart w)) = score (wG w)) /\
  (forall (lvl : Level) (s0 : Session) (w : World) (i : Input),
      reachable lvl s0 w ->
      _completed (scene w) = false ->
      health (wG w) <= 0 ->
      enabled ERestart (update lvl i w) = true /\
      health (wG (fire lvl ERestart (update lvl i w))) = 100 /\
      energy (wG (fire lvl ERestart (update lvl i w))) = 0 /\
      powerMode (wG (fire lvl ERestart (update lvl i w))) = false /\
      powerTimer (wG (fire lvl ERestart (update lvl i w))) = 0 /\
      score (wG (fire lvl ERestart (update lvl i w))) = score (wG w)) /\
  (forall (lvl : Level) (e : Event) (w : World),
      score (wG w) <= score (wG (fire lvl e w))) /\
  (forall (v : Z) (s : Session),
      sStore (G_persist (mkSession (set_score v (sG s)) (sStore s)))
      = sStore (G_persist s)).
Proof.
  split; [ intros g; repeat split | ].
  split; [ intros lvl s; repeat split | ].
  split; [ intros lvl w; repeat split | ].
  split.
  - intros lvl s0 w i Hr Hc Hz.
    destruct (reachable_Inv lvl s0 w Hr) as [HI _].
    assert (Hq : restartQueued (scene (update lvl i w)) = true).
    { rewrite update_live by (first [ exact Hc | exact (inv_body _ _ HI) ]).
      cbv zeta.
      destruct (health (wG w) <=? 0) eqn:E; [ reflexivity | lia ]. }
    split; [ exact Hq | ].
    repeat split. apply update_score.
  - split; [ intros lvl e w; apply fire_score | ].
    intros v s. reflexivity.
Qed.

(** ** Energy *)

Lemma orbOverlap_energy (lvl : Level) (w : World) :
  energy (wG (orbOverlap lvl w))
  = if energy (wG w) <? maxE lvl then energy (wG w) + 1 else energy (wG w).
Proof.
  break_world w. unfold orbOverlap; simpl.
  destruct (en <? maxE lvl); reflexivity.
Qed.

(** C2. Along every run of a level the energy count stays between 0 and
    the level's threshold (10 in the circulatory level, 12 in the
    lungs); a pickup adds exactly 1 while the count is strictly below
    the threshold and nothing once it is reached. *)
Theorem energy_never_exceeds_threshold
  (lvl : Level) (s0 : Session) (w : World) :
  reachable lvl s0 w ->
  maxE CirculatoryLevel = 10 /\ maxE LungsLevel = 12 /\
  0 <= energy (wG w) <= maxE lvl /\
  (energy (wG w) < maxE lvl ->
   energy (wG (orbOverlap lvl w)) = energy (wG w) + 1) /\
  (energy (wG w) = maxE lvl ->
   energy (wG (orbOverlap lvl w)) = energy (wG w)) /\
  energy (wG (orbOverlap lvl w)) <= maxE lvl.
Proof.
  intros Hr. destruct (reachable_Inv lvl s0 w Hr) as [[_ _ He _ _ _ _ _ _] _].
  rewrite orbOverlap_energy.
  repeat split; try lia.
  - intros Hlt. destruct (energy (wG w) <? maxE lvl) eqn:E; lia.
  - intros Heq. destruct (energy (wG w) <? maxE lvl) eqn:E; lia.
  - destruct (energy (wG w) <? maxE lvl) eqn:E; lia.
Qed.

(** ** Health and failure *)

Lemma takeHit_health (t : Z) (w : World) :
  health (wG (takeHit t w))
  = if t - lastHitAt (scene w) <? HIT_COOLDOWN_MS then health (wG w)
    else Z.max 0 (health (wG w) - 10).
Proof.
  break_world w. unfold takeHit; simpl.
  destruct (t - lh <? HIT_COOLDOWN_MS); simpl; [ reflexivity | ].
  destruct (he - 10 <? 0) eqn:E; simpl; lia.
Qed.

Lemma enabled_not_queued (e : Event) (w : World) :
  enabled e w = true -> e <> ERestart -> restartQueued (scene w) = false.
Proof.
  destruct e; simpl; intros He Hne; try contradiction;
    destruct (restartQueued (scene w)); try reflexivity; discriminate.
Qed.

Lemma queued_only_restart (e : Event) (w : World) :
  restartQueued (scene w) = true -> enabled e w = true -> e = ERestart.
Proof.
  intros Hq He. destruct e; try reflexivity;
    simpl in He; rewrite Hq in He; discriminate.
Qed.

(** The run state right after [create]. *)
Definition freshRun (w : World) : Prop :=
  health (wG w) = 100 /\ energy (wG w) = 0 /\
  powerMode (wG w) = false /\ powerTimer (wG w) = 0 /\
  _brain (scene w) = false /\ _virus (scene w) = false /\
  _completed (scene w) = false /\ lastHitAt (scene w) = 0 /\
  paused (scene w) = false /\ restartQueued (scene w) = false.

Lemma create_fresh (lvl : Level) (s : Session) : freshRun (create lvl s).
Proof.
  unfold freshRun. repeat split.
Qed.

(** C3. Along every run of a level the health stays within 0..100: it
    starts at 100, a hit that lands takes 10 off and never leads below
    0. A tick that finds the health at 0 queues the restart of the
    level; nothing else can happen before the restart runs, and the
    restart re-creates the level with a fresh run state. *)
Theorem health_bounded_and_zero_restarts
  (lvl : Level) (s0 : Session) (w : World) :
  reachable lvl s0 w ->
  health (wG (create lvl s0)) = 100 /\
  0 <= health (wG w) <= 100 /\
  (forall t : Z,
      health (wG (takeHit t w))
      = (if t - lastHitAt (scene w) <? HIT_COOLDOWN_MS then health (wG w)
         else Z.max 0 (health (wG w) - 10)) /\
      0 <= health (wG (takeHit t w)) <= 100 /\
      (health (wG (takeHit t w)) = health (wG w) \/
       health (wG (takeHit t w)) = health (wG w) - 10)) /\
  (forall i : Input,
      enabled (ETick i) w = true ->
      health (wG w) = 0 ->
      restartQueued (scene (update lvl i w)) = true /\
      (forall e, enabled e (update lvl i w) = true -> e = ERestart) /\
      freshRun (fire lvl ERestart (update lvl i w))).
Proof.
  intros Hr.
  destruct (reachable_Inv lvl s0 w Hr) as [HI HD].
  pose proof (inv_health _ _ HI) as Hh.
  pose proof (inv_tens _ _ HI) as Hm.
  split; [ reflexivity | ]. split; [ exact Hh | ]. split.
  - intros t. split; [ apply takeHit_health | ]. rewrite takeHit_health.
    destruct (t - lastHitAt (scene w) <? HIT_COOLDOWN_MS).
    + split; [ exact Hh | left; reflexivity ].
    + Z.to_euclidean_division_equations. lia.
  - intros i He Hz.
    assert (Hq : restartQueued (scene w) = false)
      by (apply (enabled_not_queued (ETick i)); [ exact He | discriminate ]).
    assert (Hc : _completed (scene w) = false).
    { destruct (HD Hz) as [Hc | Hq']; [ exact Hc | congruence ]. }
    assert (Hq' : restartQueued (scene (update lvl i w)) = true).
    { rewrite update_live by (first [ exact Hc | exact (inv_body _ _ HI) ]).
      cbv zeta. rewrite Hz. reflexivity. }
    split; [ exact Hq' | ]. split.
    + intros e. apply queued_only_restart. exact Hq'.
    + apply create_fresh.
Qed.

(** ** Completion *)

(** The cap of the pickups is the goal of the completion test. *)
Lemma goalE_maxE (lvl : Level) : goalE lvl = maxE lvl.
Proof.
  destruct lvl; reflexivity.
Qed.

Lemma objectivesMet_iff (lvl : Level) (w : World) :
  energy (wG w) <= maxE lvl ->
  (objectivesMet lvl w = true <->
   energy (wG w) = maxE lvl /\
   (_brain (scene w) = true \/ _virus (scene w) = true)).
Proof.
  intros Hle. unfold objectivesMet. rewrite goalE_maxE.
  rewrite andb_true_iff, orb_true_iff. rewrite Z.geb_le. intuition lia.
Qed.

Lemma restart_fields (w : World) :
  session (restart w) = session w /\
  _completed (scene (restart w)) = _completed (scene w) /\
  paused (scene (restart w)) = paused (scene w).
Proof.
  repeat split.
Qed.

(** A tick on a live level either grants the reward and marks the level
    completed, or leaves progress, store and physics as they were. *)
Lemma update_live_outcome (lvl : Level) (i : Input) (w : World) :
  _completed (scene w) = false ->
  body (player (scene w)) = true ->
  (objectivesMet lvl w = true ->
   _completed (scene (update lvl i w)) = true /\
   rewardGranted lvl w (update lvl i w)) /\
  (objectivesMet lvl w = false ->
   _completed (scene (update lvl i w)) = false /\
   paused (scene (update lvl i w)) = paused (scene w) /\
   sameProgress w (update lvl i w)).
Proof.
  intros Hc Hb. rewrite update_live by assumption.
  fold (afterController i w). cbv zeta.
  destruct (afterController_frame i w)
    as ((P1 & P2 & P3 & P4) & (_ & _ & _ & _ & _ & C2 & Pa2 & _)).
  split; intros Hm; rewrite Hm.
  - assert (Hc2 : _completed (scene (afterController i w)) = false)
      by congruence.
    destruct (complete_grants lvl (afterController i w) Hc2)
      as (Hcd & G1 & G2 & G3 & G4 & G5 & G6 & G7).
    assert (HR : rewardGranted lvl w (complete lvl (afterController i w))).
    { unfold rewardGranted. rewrite <- P1, <- P2.
      repeat split; try assumption.
      intros t Ht. apply G6. rewrite P3. exact Ht. }
    destruct (health (wG w) <=? 0); [ | split; assumption ].
    split; [ exact Hcd | exact HR ].
  - assert (HS : sameProgress w (afterController i w))
      by (unfold sameProgress; auto).
    destruct (health (wG w) <=? 0);
      (split; [ exact (eq_trans C2 Hc) | split; [ exact Pa2 | exact HS ] ]).
Qed.

Lemma fire_stars (lvl : Level) (e : Event) (w : World) :
  Inv lvl w -> 0 <= stars (wG w) -> 0 <= stars (wG (fire lvl e w)).
Proof.
  intros [HI _] Hs. destruct e as [ | | | t i | t | i]; simpl.
  - break_world w. simpl in *. exact Hs.
  - break_world w. unfold orbOverlap; simpl in *.
    destruct (en <? maxE lvl); simpl; exact Hs.
  - break_world w. simpl in *. exact Hs.
  - unfold virusOverlap.
    destruct (viruses (scene w) !! i) as [v | ]; [ | exact Hs ].
    destruct (negb (active v)); [ exact Hs | ].
    destruct (powerMode (wG w) && vulnerable v).
    + break_world w. simpl in *. exact Hs.
    + break_world w. unfold takeHit; simpl in *.
      destruct (t - lh <? HIT_COOLDOWN_MS); simpl; [ exact Hs | ].
      destruct (he - 10 <? 0); simpl; exact Hs.
  - break_world w. simpl in *. exact Hs.
  - destruct (_completed (scene w)) eqn:Hc.
    { rewrite update_completed by exact Hc. exact Hs. }
    destruct (update_live_outcome lvl i w Hc (inv_body _ _ HI)) as [Hy Hn].
    destruct (objectivesMet lvl w).
    + destruct (Hy eq_refl) as (_ & _ & -> & _). lia.
    + destruct (Hn eq_refl) as (_ & _ & (-> & _)). exact Hs.
Qed.

Lemma run_stars (lvl : Level) (es : list Event) (w w' : World) :
  Inv lvl w -> 0 <= stars (wG w) -> run lvl es w = Some w' ->
  0 <= stars (wG w').
Proof.
  revert w. induction es as [ | e es IH]; simpl; intros w HI Hs Hrun.
  - injection Hrun as <-. exact Hs.
  - destruct (enabled e w) eqn:He; [ | discriminate ].
    apply (IH (fire lvl e w));
      [ apply fire_Inv; assumption | apply fire_stars; assumption | exact Hrun ].
Qed.

Lemma reachable_stars (lvl : Level) (s0 : Session) (w : World) :
  0 <= stars (sG s0) -> reachable lvl s0 w -> 0 <= stars (wG w).
Proof.
  intros Hs [es Hrun].
  apply (run_stars lvl es (create lvl s0)); [ apply create_Inv | | exact Hrun ].
  destruct s0 as [g st]. exact Hs.
Qed.

(** C1. In every state of a level run, a tick leaves the level marked
    completed exactly when the energy equals the level's threshold and
    the power-up was collected or a virus was eaten. The tick that
    completes a level freezes the physics, adds one star, adds both
    facts, flags the level's system repaired (the heart in the
    circulatory level, the lungs in the lungs level, the other flag
    left as it was) and stores the record; a tick that does not
    complete it leaves progress and store alone; a completed level is
    not rewarded again. *)
Theorem completion_iff_objectives
  (lvl : Level) (s0 : Session) (w : World) (i : Input) :
  0 <= stars (sG s0) ->
  reachable lvl s0 w ->
  (_completed (scene (update lvl i w)) = true <->
   energy (wG w) = maxE lvl /\
   (_brain (scene w) = true \/ _virus (scene w) = true)) /\
  (_completed (scene w) = false ->
   _completed (scene (update lvl i w)) = true ->
   rewardGranted lvl w (update lvl i w) /\
   stars (wG (update lvl i w)) = stars (wG w) + 1 /\
   match lvl with
   | CirculatoryLevel =>
       heart (systems (wG (update lvl i w))) = true /\
       lungs (systems (wG (update lvl i w))) = lungs (systems (wG w))
   | LungsLevel =>
       lungs (systems (wG (update lvl i w))) = true /\
       heart (systems (wG (update lvl i w))) = heart (systems (wG w))
   end) /\
  (_completed (scene (update lvl i w)) = false ->
   paused (scene (update lvl i w)) = false /\
   sameProgress w (update lvl i w)) /\
  (_completed (scene w) = true -> update lvl i w = w).
Proof.
  intros Hs0 Hr.
  pose proof (reachable_stars lvl s0 w Hs0 Hr) as Hs.
  destruct (reachable_Inv lvl s0 w Hr) as [HI _].
  pose proof (inv_energy _ _ HI) as He.
  pose proof (objectivesMet_iff lvl w (proj2 He)) as Hiff.
  destruct (_completed (scene w)) eqn:Hc.
  - (* already completed: the tick changes nothing *)
    rewrite update_completed by exact Hc.
    pose proof (inv_completed _ _ HI Hc) as Hm.
    repeat split; try tauto; try congruence.
  - destruct (update_live_outcome lvl i w Hc (inv_body _ _ HI)) as [Hy Hn].
    pose proof (inv_paused _ _ HI) as Hpa. rewrite Hc in Hpa.
    destruct (objectivesMet lvl w) eqn:Hm.
    + destruct (Hy eq_refl) as (Hcd & HR).
      split; [ split; [ intros _; apply Hiff; reflexivity | auto ] | ].
      split; [ | split; [ congruence | discriminate ] ].
      intros _ _. split; [ exact HR | ].
      destruct HR as (_ & Hst & Hsys & _).
      split; [ lia | ].
      rewrite Hsys. destruct lvl; simpl; split; reflexivity.
    + destruct (Hn eq_refl) as (Hcd & Hp & HS).
      split.
      { split; [ congruence | ].
        intros Hobj. apply Hiff in Hobj. congruence. }
      split; [ congruence | ].
      split; [ | discriminate ].
      intros _. split; [ congruence | exact HS ].
Qed.

(** ** Power mode *)

Lemma applyMoveAndJump_viruses (i : Input) (s : Scene) :
  viruses (applyMoveAndJump i s) = viruses s.
Proof.
  destruct s as [cp lh br vr [vx vy ptint bd] jb ct ob pu vs pa rq].
  unfold applyMoveAndJump, applyMove, canUseBuffer, hasCoyote; simpl.
  destruct (onGround i), (leftDown i), (rightDown i); simpl;
    match goal with
    | |- context [if ?c then _ else _] => destruct c
    end; reflexivity.
Qed.

(** On a live level the power fields after [update] are those that
    [powerTick] leaves. *)
Lemma update_live_power (lvl : Level) (i : Input) (w : World) :
  _completed (scene w) = false ->
  body (player (scene w)) = true ->
  powerMode (wG (update lvl i w)) = powerMode (wG (powerTick (dt i) w)) /\
  powerTimer (wG (update lvl i w)) = powerTimer (wG (powerTick (dt i) w)) /\
  viruses (scene (update lvl i w)) = viruses (scene (powerTick (dt i) w)).
Proof.
  intros Hc Hb. rewrite update_live by assumption.
  fold (afterController i w). cbv zeta.
  assert (HA : powerMode (wG (afterController i w))
               = powerMode (wG (powerTick (dt i) w)) /\
               powerTimer (wG (afterController i w))
               = powerTimer (wG (powerTick (dt i) w)) /\
               viruses (scene (afterController i w))
               = viruses (scene (powerTick (dt i) w))).
  { unfold afterController.
    destruct (applyMoveAndJump_frame i (powerTick (dt i) w)) as (-> & _).
    repeat split. apply applyMoveAndJump_viruses. }
  destruct HA as (A1 & A2 & A3).
  destruct (complete_frame lvl (afterController i w))
    as ((_ & _ & _ & _ & M & T) & _ & _ & _ & _ & V & _).
  destruct (objectivesMet lvl w), (health (wG w) <=? 0);
    rewrite ?restart_G; repeat split; try congruence;
    first [ exact A3 | exact (eq_trans V A3) ].
Qed.

Lemma powerupOverlap_power (lvl : Level) (w : World) :
  powerMode (wG (powerupOverlap lvl w)) = true /\
  powerTimer (wG (powerupOverlap lvl w)) = POWER_MS /\
  Forall (fun v => vulnerable v = true /\ tint v = Some (vulnerableTint lvl))
         (viruses (scene (powerupOverlap lvl w))).
Proof.
  break_world w. unfold powerupOverlap; simpl. repeat split.
  induction vs as [ | v vs' IH]; simpl; constructor; auto.
Qed.

(** C4, amended. While a level is live (not completed), a tick with
    power mode on and a positive elapsed time lowers the remaining time:
    by the elapsed time when something is left, and otherwise to 0 with
    power mode switched off and every virus of the group made
    invulnerable and untinted. Collecting the power-up sets the
    remaining time to 6000 ms, power mode on or off before, and makes
    every virus vulnerable. In every state of a run the remaining time
    lies within 0..6000. A tick on a completed level changes nothing,
    so a power mode that is on at completion stays on, its time
    frozen. *)
Theorem power_timer_counts_down_while_live
  (lvl : Level) (s0 : Session) (w : World) :
  reachable lvl s0 w ->
  POWER_MS = 6000 /\
  0 <= powerTimer (wG w) <= POWER_MS /\
  (powerMode (wG (powerupOverlap lvl w)) = true /\
   powerTimer (wG (powerupOverlap lvl w)) = POWER_MS /\
   Forall (fun v => vulnerable v = true /\ tint v = Some (vulnerableTint lvl))
          (viruses (scene (powerupOverlap lvl w)))) /\
  (forall i : Input,
      _completed (scene w) = false ->
      powerMode (wG w) = true ->
      0 < dt i ->
      powerTimer (wG (update lvl i w)) < powerTimer (wG w) /\
      (0 < powerTimer (wG w) - dt i ->
       powerMode (wG (update lvl i w)) = true /\
       powerTimer (wG (update lvl i w)) = powerTimer (wG w) - dt i) /\
      (powerTimer (wG w) - dt i <= 0 ->
       powerMode (wG (update lvl i w)) = false /\
       powerTimer (wG (update lvl i w)) = 0 /\
       Forall (fun v => vulnerable v = false /\ tint v = None)
              (viruses (scene (update lvl i w))))) /\
  (forall i : Input, _completed (scene w) = true -> update lvl i w = w).
Proof.
  intros Hr. destruct (reachable_Inv lvl s0 w Hr) as [HI _].
  split; [ reflexivity | ]. split; [ apply (inv_timer _ _ HI) | ].
  split; [ apply powerupOverlap_power | ].
  split; [ | intros i Hc; apply update_completed; exact Hc ].
  intros i Hc Hp Hd.
  destruct (update_live_power lvl i w Hc (inv_body _ _ HI)) as (-> & -> & ->).
  destruct (powerTick_power (dt i) w Hp) as [Hpos Hzero].
  pose proof (inv_power_on _ _ HI Hp) as Hon.
  destruct (Z_lt_le_dec 0 (powerTimer (wG w) - dt i)) as [Hlt | Hle].
  - destruct (Hpos Hlt) as (M & T & _).
    split; [ lia | ]. split; [ auto | intros; lia ].
  - destruct (Hzero Hle) as (M & T & _ & V).
    split; [ lia | ]. split; [ intros; lia | auto ].
Qed.

(** ** Damage cooldown *)

Lemma virusOverlap_hostile (lvl : Level) (t : Z) (i : nat) (w : World) :
  hostile w i = true -> virusOverlap lvl t i w = takeHit t w.
Proof.
  unfold hostile, virusOverlap.
  destruct (viruses (scene w) !! i) as [v | ]; [ | discriminate ].
  destruct (active v); simpl; [ | discriminate ].
  destruct (powerMode (wG w) && vulnerable v); simpl;
    [ discriminate | reflexivity ].
Qed.

Lemma takeHit_lands (t : Z) (w : World) :
  HIT_COOLDOWN_MS <= t - lastHitAt (scene w) ->
  health (wG (takeHit t w)) = Z.max 0 (health (wG w) - 10) /\
  lastHitAt (scene (takeHit t w)) = t /\
  (forall i, hostile (takeHit t w) i = hostile w i).
Proof.
  intros Ht. rewrite takeHit_health.
  break_world w. unfold takeHit, hostile; simpl in *.
  destruct (t - lh <? HIT_COOLDOWN_MS) eqn:E; [ lia | ].
  destruct (he - 10 <? 0); simpl; repeat split.
Qed.

Lemma takeHit_ignored (t : Z) (w : World) :
  t - lastHitAt (scene w) < HIT_COOLDOWN_MS -> takeHit t w = w.
Proof.
  intros Ht. unfold takeHit.
  destruct (t - lastHitAt (scene w) <? HIT_COOLDOWN_MS) eqn:E;
    [ reflexivity | lia ].
Qed.

Lemma contacts_ignored (lvl : Level) (cs : list (Z * nat)) (w : World) :
  Forall (fun c => fst c - lastHitAt (scene w) < HIT_COOLDOWN_MS /\
                   hostile w (snd c) = true) cs ->
  contacts lvl cs w = w.
Proof.
  unfold contacts. induction cs as [ | [t i] cs IH]; simpl; intros Hcs.
  - reflexivity.
  - inversion Hcs as [ | c cs' [Ht Hh] Hrest]; subst. simpl in *.
    rewrite virusOverlap_hostile by exact Hh.
    rewrite takeHit_ignored by exact Ht. apply IH. exact Hrest.
Qed.

(** C5, amended. Of two contacts with hostile viruses whose clock
    readings differ by less than 650 ms at most one takes health. A
    contact takes 10 points (never below 0) and records its clock
    reading exactly when it comes at least 650 ms after the last
    recorded hit, and every further hostile contact less than 650 ms
    after the last recorded hit is ignored. So the two contacts cost 10
    points when the first lands, or when the first is ignored and the
    second lands, and nothing when both come less than 650 ms after an
    earlier hit. *)
Theorem hit_cooldown_at_most_one_decrement
  (lvl : Level) (w : World) (t1 t2 : Z) (i1 i2 : nat) :
  hostile w i1 = true ->
  hostile w i2 = true ->
  Z.abs (t2 - t1) < HIT_COOLDOWN_MS ->
  HIT_COOLDOWN_MS = 650 /\
  (HIT_COOLDOWN_MS <= t1 - lastHitAt (scene w) ->
   health (wG (virusOverlap lvl t1 i1 w)) = Z.max 0 (health (wG w) - 10) /\
   lastHitAt (scene (virusOverlap lvl t1 i1 w)) = t1 /\
   virusOverlap lvl t2 i2 (virusOverlap lvl t1 i1 w)
   = virusOverlap lvl t1 i1 w) /\
  (t1 - lastHitAt (scene w) < HIT_COOLDOWN_MS ->
   virusOverlap lvl t1 i1 w = w /\
   (t2 - lastHitAt (scene w) < HIT_COOLDOWN_MS ->
    virusOverlap lvl t2 i2 (virusOverlap lvl t1 i1 w) = w) /\
   (HIT_COOLDOWN_MS <= t2 - lastHitAt (scene w) ->
    health (wG (virusOverlap lvl t2 i2 (virusOverlap lvl t1 i1 w)))
    = Z.max 0 (health (wG w) - 10) /\
    lastHitAt (scene (virusOverlap lvl t2 i2 (virusOverlap lvl t1 i1 w)))
    = t2)) /\
  (health (wG (virusOverlap lvl t2 i2 (virusOverlap lvl t1 i1 w)))
   = health (wG w) \/
   health (wG (virusOverlap lvl t2 i2 (virusOverlap lvl t1 i1 w)))
   = Z.max 0 (health (wG w) - 10)) /\
  (forall (cs : list (Z * nat)) (w' : World),
      Forall (fun c => fst c - lastHitAt (scene w') < HIT_COOLDOWN_MS /\
                       hostile w' (snd c) = true) cs ->
      contacts lvl cs w' = w').
Proof.
  intros Hh1 Hh2 Habs.
  assert (Hfirst : HIT_COOLDOWN_MS <= t1 - lastHitAt (scene w) ->
            health (wG (virusOverlap lvl t1 i1 w))
            = Z.max 0 (health (wG w) - 10) /\
            lastHitAt (scene (virusOverlap lvl t1 i1 w)) = t1 /\
            virusOverlap lvl t2 i2 (virusOverlap lvl t1 i1 w)
            = virusOverlap lvl t1 i1 w).
  { intros Ht. rewrite (virusOverlap_hostile lvl t1 i1 w Hh1).
    destruct (takeHit_lands t1 w Ht) as (H1 & H2 & H3).
    split; [ exact H1 | ]. split; [ exact H2 | ].
    rewrite virusOverlap_hostile by (rewrite H3; exact Hh2).
    apply takeHit_ignored. rewrite H2. lia. }
  assert (Hsecond : t1 - lastHitAt (scene w) < HIT_COOLDOWN_MS ->
            virusOverlap lvl t1 i1 w = w /\
            (t2 - lastHitAt (scene w) < HIT_COOLDOWN_MS ->
             virusOverlap lvl t2 i2 (virusOverlap lvl t1 i1 w) = w) /\
            (HIT_COOLDOWN_MS <= t2 - lastHitAt (scene w) ->
             health (wG (virusOverlap lvl t2 i2 (virusOverlap lvl t1 i1 w)))
             = Z.max 0 (health (wG w) - 10) /\
             lastHitAt (scene (virusOverlap lvl t2 i2
                                 (virusOverlap lvl t1 i1 w))) = t2)).
  { intros Ht.
    assert (Hw : virusOverlap lvl t1 i1 w = w).
    { rewrite virusOverlap_hostile by exact Hh1.
      apply takeHit_ignored. exact Ht. }
    rewrite Hw. split; [ reflexivity | ].
    rewrite (virusOverlap_hostile lvl t2 i2 w Hh2). split.
    - intros Ht2. apply takeHit_ignored. exact Ht2.
    - intros Ht2. destruct (takeHit_lands t2 w Ht2) as (H1 & H2 & _).
      split; assumption. }
  split; [ reflexivity | ]. split; [ exact Hfirst | ].
  split; [ exact Hsecond | ]. split.
  - destruct (Z_lt_le_dec (t1 - lastHitAt (scene w)) HIT_COOLDOWN_MS)
      as [Ht | Ht].
    + destruct (Hsecond Ht) as (_ & Hno & Hyes).
      destruct (Z_lt_le_dec (t2 - lastHitAt (scene w)) HIT_COOLDOWN_MS)
        as [Ht2 | Ht2].
      * left. rewrite (Hno Ht2). reflexivity.
      * right. apply (Hyes Ht2).
    + destruct (Hfirst Ht) as (H1 & _ & H3).
      right. rewrite H3. exact H1.
  - intros cs w'. apply contacts_ignored.
Qed.

End LevelProperties.

(** ** Player controller: buffered jump and coyote time *)

Section ControllerProperties.

Lemma applyMove_fields (i : Input) (s : Scene) :
  jumpBufferTime (applyMove i s) = jumpBufferTime s /\
  coyoteTime (applyMove i s) = (if onGround i then now i else coyoteTime s) /\
  velocityY (player (applyMove i s)) = velocityY (player s).
Proof.
  destruct s as [cp lh br vr [vx vy ptint bd] jb ct ob pu vs pa rq].
  unfold applyMove; simpl.
  destruct (onGround i), (leftDown i), (rightDown i); repeat split.
Qed.

Lemma jumps_iff (i : Input) (s : Scene) :
  jumps i s = true <->
  now i - jumpBufferTime s <= JUMP_BUFFER_MS /\
  (onGround i = true \/ now i - coyoteTime s <= COYOTE_TIME_MS).
Proof.
  unfold jumps, canUseBuffer, hasCoyote.
  destruct (applyMove_fields i s) as (-> & -> & _).
  rewrite andb_true_iff, !Z.leb_le.
  destruct (onGround i); unfold COYOTE_TIME_MS; intuition (try lia).
Qed.

Lemma applyMoveAndJump_cases (i : Input) (s : Scene) :
  (jumps i s = true ->
   velocityY (player (applyMoveAndJump i s)) = JUMP_VELOCITY /\
   jumpBufferTime (applyMoveAndJump i s) = 0 /\
   coyoteTime (applyMoveAndJump i s) = 0) /\
  (jumps i s = false ->
   applyMoveAndJump i s = applyMove i s /\
   velocityY (player (applyMoveAndJump i s)) = velocityY (player s) /\
   jumpBufferTime (applyMoveAndJump i s) = jumpBufferTime s).
Proof.
  unfold applyMoveAndJump. fold (jumps i s).
  destruct (applyMove_fields i s) as (Hj & _ & Hv).
  split; intros ->; repeat split; assumption.
Qed.

(** What the two recorded times of the scene stand for after a run that
    began with [enableCursors]: 0, the cleared value, or the reading of
    a press, respectively of a frame that found the player on the
    ground. *)
Definition recorded (es : list KeyEvent) (s : Scene) : Prop :=
  (jumpBufferTime s = 0 \/ In (Press (jumpBufferTime s)) es) /\
  (coyoteTime s = 0 \/
   exists j, In (Frame j) es /\ onGround j = true /\ coyoteTime s = now j).

Lemma controlAll_snoc (es : list KeyEvent) (e : KeyEvent) (s : Scene) :
  controlAll (es ++ [e]) s = control e (controlAll es s).
Proof.
  unfold controlAll. rewrite fold_left_app. reflexivity.
Qed.

Lemma controlAll_recorded (es : list KeyEvent) (s0 : Scene) :
  recorded es (controlAll es (enableCursors s0)).
Proof.
  induction es as [ | e es IH] using rev_ind.
  - split; left; reflexivity.
  - rewrite controlAll_snoc.
    set (s := controlAll es (enableCursors s0)) in *.
    destruct IH as [Hb Hc].
    assert (Hc' : coyoteTime s = 0 \/
                  exists j, In (Frame j) (es ++ [e]) /\ onGround j = true /\
                            coyoteTime s = now j).
    { destruct Hc as [Hc | (j & Hin & Hg & Hc)]; [ left; exact Hc | ].
      right. exists j. rewrite in_app_iff. auto. }
    assert (Hb' : jumpBufferTime s = 0 \/
                  In (Press (jumpBufferTime s)) (es ++ [e])).
    { destruct Hb as [Hb | Hb]; [ left; exact Hb | ].
      right. rewrite in_app_iff. auto. }
    unfold recorded. destruct e as [t | i]; simpl.
    + split.
      * right. destruct s. simpl. rewrite in_app_iff. right. left. reflexivity.
      * destruct s. exact Hc'.
    + destruct (applyMoveAndJump_cases i s) as [Hy Hn].
      destruct (jumps i s).
      * destruct (Hy eq_refl) as (_ & -> & ->). split; left; reflexivity.
      * destruct (Hn eq_refl) as (-> & _ & _).
        destruct (applyMove_fields i s) as (-> & -> & _).
        split; [ exact Hb' | ].
        destruct (onGround i) eqn:Hg; [ | exact Hc' ].
        right. exists i. rewrite in_app_iff. simpl. auto.
Qed.

Lemma countJumps_bound (es : list KeyEvent) (s : Scene) :
  clockPastWindows es ->
  (countJumps es s
   <= countPresses es + (if (jumpBufferTime s =? 0)%Z then 0 else 1))%nat.
Proof.
  revert s. induction es as [ | e es IH]; intros s Hclk.
  - simpl. lia.
  - inversion Hclk as [ | e' es' He Hrest]; subst.
    specialize (IH (control e s) Hrest).
    destruct e as [t | i]; simpl in *.
    + destruct (jumpBufferTime s =? 0), (t =? 0); lia.
    + destruct (applyMoveAndJump_cases i s) as [Hy Hn].
      destruct (jumps i s) eqn:Hj.
      * destruct (Hy eq_refl) as (_ & Hb & _). rewrite Hb in IH. simpl in IH.
        apply jumps_iff in Hj. destruct Hj as [Hbuf _].
        destruct (jumpBufferTime s =? 0) eqn:E; [ | lia ].
        apply Z.eqb_eq in E. lia.
      * destruct (Hn eq_refl) as (_ & _ & Hb). rewrite Hb in IH. lia.
Qed.

(** C8. In every frame the jump is taken exactly when the recorded press
    lies within the 140 ms buffer and the player is on the ground or
    was within the 140 ms coyote window; taking it sets the vertical
    velocity to the jump impulse and clears both recorded times, and not
    taking it leaves velocity and buffer alone. Over a run of the
    controller whose frames read a clock past the windows, a jump
    therefore goes back to a press of the run within the buffer window
    and to a frame of the run that found the player on the ground
    within the coyote window, and the run takes no more jumps than it
    holds presses. *)
Theorem jump_needs_buffered_press_and_ground :
  JUMP_BUFFER_MS = 140 /\ COYOTE_TIME_MS = 140 /\
  (forall (i : Input) (s : Scene),
      (jumps i s = true <->
       now i - jumpBufferTime s <= JUMP_BUFFER_MS /\
       (onGround i = true \/ now i - coyoteTime s <= COYOTE_TIME_MS)) /\
      (jumps i s = true ->
       velocityY (player (applyMoveAndJump i s)) = JUMP_VELOCITY /\
       jumpBufferTime (applyMoveAndJump i s) = 0 /\
       coyoteTime (applyMoveAndJump i s) = 0) /\
      (jumps i s = false ->
       velocityY (player (applyMoveAndJump i s)) = velocityY (player s) /\
       jumpBufferTime (applyMoveAndJump i s) = jumpBufferTime s)) /\
  (forall (s0 : Scene) (es : list KeyEvent) (i : Input),
      clockPastWindows (es ++ [Frame i]) ->
      (jumps i (controlAll es (enableCursors s0)) = true ->
       (exists t, In (Press t) es /\ now i - t <= JUMP_BUFFER_MS) /\
       (exists j, In (Frame j) (es ++ [Frame i]) /\ onGround j = true /\
                  now i - now j <= COYOTE_TIME_MS)) /\
      (countJumps (es ++ [Frame i]) (enableCursors s0)
       <= countPresses (es ++ [Frame i]))%nat).
Proof.
  split; [ reflexivity | ]. split; [ reflexivity | ]. split.
  - intros i s. split; [ apply jumps_iff | ].
    destruct (applyMoveAndJump_cases i s) as [Hy Hn].
    split; [ exact Hy | ].
    intros Hj. destruct (Hn Hj) as (_ & Hv & Hb). auto.
  - intros s0 es i Hclk. split.
    + intros Hj. apply jumps_iff in Hj. destruct Hj as [Hbuf Hcoy].
      assert (Hnow : JUMP_BUFFER_MS < now i /\ COYOTE_TIME_MS < now i).
      { unfold clockPastWindows in Hclk. rewrite Forall_app in Hclk.
        destruct Hclk as [_ Hlast].
        inversion Hlast as [ | e l Hi _]; subst. exact Hi. }
      destruct (controlAll_recorded es s0) as [Hb Hc].
      split.
      * destruct Hb as [Hb | Hb]; [ rewrite Hb in Hbuf; lia | ].
        eexists. split; [ exact Hb | exact Hbuf ].
      * destruct Hcoy as [Hg | Hcoy].
        { exists i. rewrite in_app_iff. simpl.
          repeat split; auto. unfold COYOTE_TIME_MS. lia. }
        destruct Hc as [Hc | (j & Hin & Hg & Hc)];
          [ rewrite Hc in Hcoy; lia | ].
        exists j. rewrite in_app_iff. rewrite Hc in Hcoy. auto.
    + pose proof (countJumps_bound (es ++ [Frame i]) (enableCursors s0) Hclk)
        as Hbound.
      destruct s0. simpl in Hbound. lia.
Qed.

End ControllerProperties.

(** ** Hub: repairing the heart *)

Section HubProperties.

Context `{JSON}.

(** A refused repair as the specification words it: a press on the
    repair button that finds the heart unrepaired and less than one star
    changes nothing and shows the advisory notice. *)
Definition refusedWithNotice (h : Hub) : Prop :=
  hSession (pointerdown HeartBtn h) = hSession h /\
  toasts (pointerdown HeartBtn h) = (toasts h ++ [NOTICE_EARN])%list.

Lemma pointerdown_listening (b : Button) (h : Hub) :
  heartListening h = canRepair (hG h) ->
  heartListening (pointerdown b h) = canRepair (hG (pointerdown b h)).
Proof.
  destruct h as [[g st] hl ll ts sd]. unfold hG; simpl. intros ->.
  destruct b; simpl.
  - destruct (canRepair g) eqn:Hcan; [ | simpl; auto ].
    unfold heartOnClick, hG; simpl.
    unfold canRepair in Hcan. apply andb_prop in Hcan.
    destruct Hcan as [Hh Hs].
    destruct (heart (systems g)); [ discriminate | ].
    destruct (stars g <? 1) eqn:E; [ lia | ]. reflexivity.
  - destruct ll; [ | exact eq_refl ].
    unfold lungsOnClick, hG; simpl.
    destruct (negb (heart (systems g))); reflexivity.
  - reflexivity.
Qed.

Lemma hubAfter_listening (bs : list Button) (s : Session) :
  heartListening (hubAfter bs s) = canRepair (hG (hubAfter bs s)).
Proof.
  unfold hubAfter.
  induction bs as [ | b bs IH] using rev_ind.
  - reflexivity.
  - rewrite fold_left_app. simpl. apply pointerdown_listening. exact IH.
Qed.

Lemma heartOnClick_refuses (h : Hub) :
  heart (systems (hG h)) = false ->
  stars (hG h) < 1 ->
  heartOnClick h = toast NOTICE_EARN h.
Proof.
  intros Hh Hs. unfold heartOnClick. rewrite Hh.
  destruct (stars (hG h) <? 1) eqn:E; [ reflexivity | lia ].
Qed.

Lemma heartOnClick_repairs (h : Hub) :
  heart (systems (hG h)) = false ->
  1 <= stars (hG h) ->
  stars (hG (heartOnClick h)) = stars (hG h) - 1 /\
  systems (hG (heartOnClick h)) = mkSystems true (lungs (systems (hG h))) /\
  facts (hG (heartOnClick h)) = facts (hG h) /\
  sStore (hSession (heartOnClick h))
  = Some (JSON_stringify
            (Store.snapshot (progress_of (hG (heartOnClick h))))) /\
  toasts (heartOnClick h) = (toasts h ++ [NOTICE_REPAIRED])%list /\
  heartListening (heartOnClick h) = false /\
  lungsListening (heartOnClick h) = true.
Proof.
  destruct h as [[g st] hl ll ts sd]. unfold hG; simpl. intros Hh Hs.
  unfold heartOnClick, hG; simpl. rewrite Hh.
  destruct (stars g <? 1) eqn:E; [ lia | ].
  destruct g as [sc he en lv pm pt sr [hs ls] fs]; simpl in *.
  repeat split. lia.
Qed.

(** The repair button of a hub with the heart not repaired: while the
    balance is below one star the button carries no listener, so a
    press changes nothing at all (no star, no system flag, no stored
    record, and no toast), and the handler itself, were it run, would
    only add the advisory toast; with at least one star the press takes
    exactly one star, flags the heart repaired, stores the record and
    toasts the repair. *)
Lemma repair_needs_a_star (s : Session) (bs : list Button) :
  heart (systems (hG (hubAfter bs s))) = false ->
  (stars (hG (hubAfter bs s)) < 1 ->
   pointerdown HeartBtn (hubAfter bs s) = hubAfter bs s /\
   hSession (heartOnClick (hubAfter bs s)) = hSession (hubAfter bs s) /\
   toasts (heartOnClick (hubAfter bs s))
   = (toasts (hubAfter bs s) ++ [NOTICE_EARN])%list) /\
  (1 <= stars (hG (hubAfter bs s)) ->
   stars (hG (pointerdown HeartBtn (hubAfter bs s)))
   = stars (hG (hubAfter bs s)) - 1 /\
   systems (hG (pointerdown HeartBtn (hubAfter bs s)))
   = mkSystems true (lungs (systems (hG (hubAfter bs s)))) /\
   facts (hG (pointerdown HeartBtn (hubAfter bs s)))
   = facts (hG (hubAfter bs s)) /\
   sStore (hSession (pointerdown HeartBtn (hubAfter bs s)))
   = Some (JSON_stringify
             (Store.snapshot
                (progress_of (hG (pointerdown HeartBtn (hubAfter bs s)))))) /\
   toasts (pointerdown HeartBtn (hubAfter bs s))
   = (toasts (hubAfter bs s) ++ [NOTICE_REPAIRED])%list).
Proof.
  intros Hh.
  pose proof (hubAfter_listening bs s) as Hl.
  set (h := hubAfter bs s) in *.
  unfold canRepair in Hl. rewrite Hh in Hl. simpl in Hl.
  split; intros Hs.
  - assert (Hoff : heartListening h = false).
    { rewrite Hl. destruct (stars (hG h) >=? 1) eqn:E; [ lia | reflexivity ]. }
    simpl. rewrite Hoff.
    rewrite (heartOnClick_refuses h Hh Hs).
    repeat split.
  - assert (Hon : heartListening h = true).
    { rewrite Hl. destruct (stars (hG h) >=? 1) eqn:E; [ reflexivity | lia ]. }
    simpl. rewrite Hon.
    destruct (heartOnClick_repairs h Hh Hs) as (A & B & C & D & E & _).
    repeat split; assumption.
Qed.

End HubProperties.

(** * Further properties of the level scenes *)

(** The sprites [create] puts into the groups. *)
Definition initialOrbs (lvl : Level) : nat :=
  match lvl with CirculatoryLevel => 12 | LungsLevel => 14 end.
Definition initialViruses (lvl : Level) : nat :=
  match lvl with CirculatoryLevel => 2 | LungsLevel => 3 end.

(** A run of one attempt: no restart among its events. *)
Definition noRestart (es : list Event) : bool :=
  forallb (fun e => match e with ERestart => false | _ => true end) es.

Definition sumZ (ds : list Z) : Z := fold_right Z.add 0 ds.

Section AttemptProperties.

Context `{JSON}.

(** How the sprites and the flags of an attempt hang together: every
    virus of the group is active, and vulnerable and tinted exactly
    while power mode is on, as the player is tinted; the power-up is
    there until [_brain] is set, and power mode needs [_brain]; the
    energy counts the orbs taken, up to the cap; [_virus] tells that a
    virus is gone. *)
Record AttemptInv (lvl : Level) (w : World) : Prop := mkAttemptInv {
  ai_mirror :
    Forall (fun v => active v = true /\
                     vulnerable v = powerMode (wG w) /\
                     tint v = (if powerMode (wG w)
                               then Some (vulnerableTint lvl) else None))
           (viruses (scene w));
  ai_glow :
    playerTint (player (scene w))
    = (if powerMode (wG w) then Some playerPowerTint else None);
  ai_powerup : powerups (scene w) = (if _brain (scene w) then 0 else 1)%nat;
  ai_power_brain : powerMode (wG w) = true -> _brain (scene w) = true;
  ai_orbs : (orbs (scene w) <= initialOrbs lvl)%nat;
  ai_energy :
    energy (wG w)
    = Z.min (maxE lvl) (Z.of_nat (initialOrbs lvl - orbs (scene w)));
  ai_viruses : (length (viruses (scene w)) <= initialViruses lvl)%nat;
  ai_virus :
    _virus (scene w)
    = (length (viruses (scene w)) <? initialViruses lvl)%nat
}.

Ltac break_world w :=
  destruct w as [[[sc he en lv pm pt sr [hs ls] fs] st]
                 [cp lh br vr [vx vy ptint bd] jb ct ob pu vs pa rq]].

Lemma create_AttemptInv (lvl : Level) (s : Session) :
  AttemptInv lvl (create lvl s).
Proof.
  destruct s as [g st].
  constructor; simpl; try reflexivity; try discriminate;
    try (destruct lvl; simpl; repeat constructor; lia).
Qed.

Lemma orbOverlap_AttemptInv (lvl : Level) (w : World) :
  (0 < orbs (scene w))%nat ->
  AttemptInv lvl w -> AttemptInv lvl (orbOverlap lvl w).
Proof.
  break_world w. intros Hpos [Hm Hg Hp Hpb Ho He Hvs Hv]. simpl in *.
  unfold orbOverlap; simpl.
  destruct (en <? maxE lvl) eqn:E; simpl;
    constructor; simpl; auto; try lia.
Qed.

Lemma Forall_map_const {A B} (P : B -> Prop) (f : A -> B) (l : list A) :
  (forall a, P (f a)) -> Forall P (map f l).
Proof.
  intros Hf. induction l as [ | a l IH]; simpl; constructor; auto.
Qed.

Lemma activatePower_AttemptInv (lvl : Level) (ms : Z) (w : World) :
  _brain (scene w) = true ->
  AttemptInv lvl w -> AttemptInv lvl (activatePower lvl ms w).
Proof.
  break_world w. intros Hb [Hm Hg Hp Hpb Ho He Hvs Hv]. simpl in *.
  constructor; simpl; auto.
  - clear - Hm. induction Hm as [ | v l (Ha & _ & _) _ IH]; simpl;
      constructor; auto.
  - rewrite length_map. exact Hvs.
  - rewrite length_map. exact Hv.
Qed.

Lemma endPower_AttemptInv (lvl : Level) (w : World) :
  AttemptInv lvl w -> AttemptInv lvl (endPower w).
Proof.
  break_world w. intros [Hm Hg Hp Hpb Ho He Hvs Hv]. simpl in *.
  constructor; simpl; auto; try discriminate.
  - clear - Hm. induction Hm as [ | v l (Ha & _ & _) _ IH]; simpl;
      constructor; auto.
  - rewrite length_map. exact Hvs.
  - rewrite length_map. exact Hv.
Qed.

Lemma powerupOverlap_AttemptInv (lvl : Level) (w : World) :
  (0 < powerups (scene w))%nat ->
  AttemptInv lvl w -> AttemptInv lvl (powerupOverlap lvl w).
Proof.
  break_world w. intros Hpos [Hm Hg Hp Hpb Ho He Hvs Hv]. simpl in *.
  destruct br; [ lia | ]. subst pu.
  unfold powerupOverlap; simpl.
  constructor; simpl; auto.
  - clear - Hm. induction Hm as [ | v l (Ha & _ & _) _ IH]; simpl;
      constructor; auto.
  - rewrite length_map. exact Hvs.
  - rewrite length_map. exact Hv.
Qed.

Lemma takeHit_AttemptInv (lvl : Level) (t : Z) (w : World) :
  AttemptInv lvl w -> AttemptInv lvl (takeHit t w).
Proof.
  break_world w. intros [Hm Hg Hp Hpb Ho He Hvs Hv]. simpl in *.
  unfold takeHit; simpl.
  destruct (t - lh <? HIT_COOLDOWN_MS); simpl;
    [ constructor; simpl; auto | ].
  destruct (he - 10 <? 0); simpl; constructor; simpl; auto.
Qed.

Lemma length_delete_lookup {A} (l : list A) (i : nat) (x : A) :
  l !! i = Some x -> S (length (delete i l)) = length l.
Proof.
  revert i. induction l as [ | a l IH]; intros [ | i]; simpl; intros Hi;
    try discriminate; auto.
Qed.

Lemma Forall_delete_list {A} (P : A -> Prop) (l : list A) (i : nat) :
  Forall P l -> Forall P (delete i l).
Proof.
  intros Hl. revert i. induction Hl as [ | a l Ha Hl IH]; intros [ | i];
    simpl; auto.
Qed.

Lemma virusOverlap_AttemptInv (lvl : Level) (t : Z) (i : nat) (w : World) :
  AttemptInv lvl w -> AttemptInv lvl (virusOverlap lvl t i w).
Proof.
  intros HI. unfold virusOverlap.
  destruct (viruses (scene w) !! i) as [v | ] eqn:Hi; [ | exact HI ].
  destruct (negb (active v)); [ exact HI | ].
  destruct (powerMode (wG w) && vulnerable v);
    [ | apply takeHit_AttemptInv; exact HI ].
  pose proof (length_delete_lookup _ _ _ Hi) as Hlen.
  clear Hi v. break_world w. destruct HI as [Hm Hg Hp Hpb Ho He Hvs Hv].
  simpl in *.
  constructor; simpl; auto.
  - apply Forall_delete_list. exact Hm.
  - lia.
  - symmetry. apply Nat.ltb_lt. lia.
Qed.

Lemma powerTick_AttemptInv (lvl : Level) (d : Z) (w : World) :
  AttemptInv lvl w -> AttemptInv lvl (powerTick d w).
Proof.
  intros HI. unfold powerTick.
  destruct (powerMode (wG w)) eqn:Hp; [ | exact HI ].
  set (w1 := on_G (fun g => set_powerTimer (powerTimer g - d) g) w).
  assert (HI1 : AttemptInv lvl w1).
  { subst w1. break_world w. destruct HI as [Hm Hg Hpu Hpb Ho He Hvs Hv].
    constructor; simpl in *; auto. }
  destruct (powerTimer (wG w1) <=? 0);
    [ apply endPower_AttemptInv; exact HI1 | exact HI1 ].
Qed.

Lemma applyMoveAndJump_scene (i : Input) (s : Scene) :
  playerTint (player (applyMoveAndJump i s)) = playerTint (player s) /\
  orbs (applyMoveAndJump i s) = orbs s /\
  powerups (applyMoveAndJump i s) = powerups s /\
  viruses (applyMoveAndJump i s) = viruses s /\
  _brain (applyMoveAndJump i s) = _brain s /\
  _virus (applyMoveAndJump i s) = _virus s /\
  lastHitAt (applyMoveAndJump i s) = lastHitAt s.
Proof.
  destruct s as [cp lh br vr [vx vy ptint bd] jb ct ob pu vs pa rq].
  unfold applyMoveAndJump, applyMove, canUseBuffer, hasCoyote; simpl.
  destruct (onGround i), (leftDown i), (rightDown i); simpl;
    match goal with
    | |- context [if ?c then _ else _] => destruct c
    end; repeat split.
Qed.

Lemma applyMoveAndJump_AttemptInv (lvl : Level) (i : Input) (w : World) :
  AttemptInv lvl w -> AttemptInv lvl (on_scene (applyMoveAndJump i) w).
Proof.
  intros [Hm Hg Hpu Hpb Ho He Hvs Hv].
  destruct (applyMoveAndJump_scene i (scene w))
    as (E1 & E2 & E3 & E4 & E5 & E6 & _).
  constructor; unfold on_scene, wG in *; simpl;
    rewrite ?E1, ?E2, ?E3, ?E4, ?E5, ?E6; auto.
Qed.

Lemma complete_AttemptInv (lvl : Level) (w : World) :
  AttemptInv lvl w -> AttemptInv lvl (complete lvl w).
Proof.
  intros HI.
  destruct (_completed (scene w)) eqn:Hc.
  { unfold complete. rewrite Hc. exact HI. }
  rewrite (complete_live lvl w Hc).
  destruct (grant_spec lvl (session w))
    as (_ & _ & _ & _ & _ & (_ & _ & Ee & _ & Em & _) & _).
  remember (grant lvl (session w)) as s' eqn:Hs'. clear Hs'.
  destruct HI as [Hm Hg Hpu Hpb Ho He Hvs Hv].
  unfold wG in *.
  constructor; unfold wG; simpl; rewrite ?Ee, ?Em; auto.
Qed.

Lemma restart_AttemptInv (lvl : Level) (w : World) :
  AttemptInv lvl w -> AttemptInv lvl (restart w).
Proof.
  intros [Hm Hg Hpu Hpb Ho He Hvs Hv]. constructor; simpl; auto.
Qed.

Lemma update_AttemptInv (lvl : Level) (i : Input) (w : World) :
  AttemptInv lvl w -> AttemptInv lvl (update lvl i w).
Proof.
  intros HI.
  pose proof (powerTick_AttemptInv lvl (dt i) w HI) as H1.
  pose proof (applyMoveAndJump_AttemptInv lvl i _ H1) as H2.
  destruct lvl; simpl; unfold Circulatory_update, Lungs_update;
    destruct (_completed (scene w)); try exact HI;
    destruct (negb (body (player (scene (powerTick (dt i) w)))));
    try exact H1;
    repeat match goal with
      | |- context [if ?c then _ else _] => destruct c
      end;
    auto using complete_AttemptInv, restart_AttemptInv.
Qed.

Lemma fire_AttemptInv (lvl : Level) (e : Event) (w : World) :
  enabled e w = true -> AttemptInv lvl w -> AttemptInv lvl (fire lvl e w).
Proof.
  destruct e as [ | | | t i | t | i]; simpl; intros He HI.
  - apply create_AttemptInv.
  - apply orbOverlap_AttemptInv; [ | exact HI ].
    apply andb_prop in He. destruct He as [_ He]. apply Nat.ltb_lt. exact He.
  - apply powerupOverlap_AttemptInv; [ | exact HI ].
    apply andb_prop in He. destruct He as [_ He]. apply Nat.ltb_lt. exact He.
  - apply virusOverlap_AttemptInv. exact HI.
  - destruct HI as [Hm Hg Hpu Hpb Ho Hen Hvs Hv].
    destruct w as [s sc]; destruct sc. constructor; simpl in *; auto.
  - apply update_AttemptInv. exact HI.
Qed.

Lemma run_AttemptInv (lvl : Level) (es : list Event) (w w' : World) :
  AttemptInv lvl w -> run lvl es w = Some w' -> AttemptInv lvl w'.
Proof.
  revert w. induction es as [ | e es IH]; simpl; intros w HI Hrun.
  - injection Hrun as <-. exact HI.
  - destruct (enabled e w) eqn:He; [ | discriminate ].
    apply (IH (fire lvl e w)); [ apply fire_AttemptInv; assumption | exact Hrun ].
Qed.

Lemma reachable_AttemptInv (lvl : Level) (s0 : Session) (w : World) :
  reachable lvl s0 w -> AttemptInv lvl w.
Proof.
  intros [es Hrun].
  apply (run_AttemptInv lvl es (create lvl s0)); [ | exact Hrun ].
  apply create_AttemptInv.
Qed.

(** X1. In every state of a level run the objective counters account for
    the sprites taken in the current attempt: the energy is the number
    of orbs gone from the group, capped at the level's threshold;
    [_brain] is set exactly when the power-up is gone; [_virus] is set
    exactly when a virus is gone from the group. *)
Theorem objectives_account_for_sprites
  (lvl : Level) (s0 : Session) (w : World) :
  reachable lvl s0 w ->
  (orbs (scene w) <= initialOrbs lvl)%nat /\
  energy (wG w)
  = Z.min (maxE lvl) (Z.of_nat (initialOrbs lvl - orbs (scene w))) /\
  (_brain (scene w) = true <-> powerups (scene w) = 0%nat) /\
  (_brain (scene w) = false <-> powerups (scene w) = 1%nat) /\
  (_virus (scene w) = true <->
   (length (viruses (scene w)) < initialViruses lvl)%nat) /\
  (_virus (scene w) = false <->
   length (viruses (scene w)) = initialViruses lvl).
Proof.
  intros Hr.
  destruct (reachable_AttemptInv lvl s0 w Hr) as [_ _ Hpu _ Ho He Hvs Hv].
  split; [ exact Ho | ]. split; [ exact He | ].
  rewrite Hpu, Hv.
  destruct (_brain (scene w));
    destruct (Nat.ltb_spec (length (viruses (scene w))) (initialViruses lvl));
    intuition (try lia; try discriminate).
Qed.

(** X2. In every state of a level run the viruses mirror the power mode:
    each virus of the group is vulnerable and carries the level's tint
    exactly while power mode is on, and so does the player's tint. A
    contact during power mode therefore never costs health and never
    starts a cooldown: it removes the virus touched, sets [_virus] and
    adds the level's virus score. A contact while power mode is off is
    always a hit under the cooldown. *)
Theorem contact_outcome_follows_power_mode
  (lvl : Level) (s0 : Session) (w : World) (t : Z) (i : nat) (v : Virus) :
  reachable lvl s0 w ->
  viruses (scene w) !! i = Some v ->
  vulnerable v = powerMode (wG w) /\
  tint v = (if powerMode (wG w) then Some (vulnerableTint lvl) else None) /\
  playerTint (player (scene w))
  = (if powerMode (wG w) then Some playerPowerTint else None) /\
  (powerMode (wG w) = true ->
   health (wG (virusOverlap lvl t i w)) = health (wG w) /\
   lastHitAt (scene (virusOverlap lvl t i w)) = lastHitAt (scene w) /\
   viruses (scene (virusOverlap lvl t i w)) = delete i (viruses (scene w)) /\
   _virus (scene (virusOverlap lvl t i w)) = true /\
   score (wG (virusOverlap lvl t i w)) = score (wG w) + virusScore lvl) /\
  (powerMode (wG w) = false ->
   virusOverlap lvl t i w = takeHit t w).
Proof.
  intros Hr Hi.
  destruct (reachable_AttemptInv lvl s0 w Hr) as [Hm Hg _ _ _ _ _ _].
  rewrite Forall_forall in Hm.
  assert (Hin : In v (viruses (scene w))).
  { apply list_elem_of_In. eapply list_elem_of_lookup_2. exact Hi. }
  destruct (Hm v) as (Ha & Hv & Ht).
  { apply list_elem_of_In. exact Hin. }
  split; [ exact Hv | ]. split; [ exact Ht | ]. split; [ exact Hg | ].
  unfold virusOverlap. rewrite Hi, Ha, Hv. simpl.
  split; intros Hp; rewrite Hp; simpl.
  - break_world w. simpl. repeat split.
  - reflexivity.
Qed.

(** ** Within one attempt *)

(** What an event other than a restart can do to the stats of the
    attempt: energy, score and the two flags only go up, health only
    goes down (from a health that is not negative), the last hit only
    moves on, and 10 points of health cost at least 650 ms of clock. *)
Definition attemptOrder (w w' : World) : Prop :=
  energy (wG w) <= energy (wG w') /\
  score (wG w) <= score (wG w') /\
  (_brain (scene w) = true -> _brain (scene w') = true) /\
  (_virus (scene w) = true -> _virus (scene w') = true) /\
  lastHitAt (scene w) <= lastHitAt (scene w') /\
  (0 <= health (wG w) ->
   0 <= health (wG w') <= health (wG w) /\
   65 * (health (wG w) - health (wG w'))
   <= lastHitAt (scene w') - lastHitAt (scene w)).

Lemma attemptOrder_refl (w : World) : attemptOrder w w.
Proof.
  unfold attemptOrder. repeat split; auto; lia.
Qed.

Lemma attemptOrder_trans (w1 w2 w3 : World) :
  attemptOrder w1 w2 -> attemptOrder w2 w3 -> attemptOrder w1 w3.
Proof.
  unfold attemptOrder. intros (A1 & A2 & A3 & A4 & A5 & A6)
    (B1 & B2 & B3 & B4 & B5 & B6).
  split; [ lia | ]. split; [ lia | ]. split; [ auto | ].
  split; [ auto | ]. split; [ lia | ].
  intros Hh. destruct (A6 Hh) as (A7 & A8).
  destruct B6 as (B7 & B8); lia.
Qed.

Lemma sameObjectives_order (w w' : World) :
  sameObjectives w w' -> attemptOrder w w'.
Proof.
  unfold sameObjectives, attemptOrder.
  intros (E1 & E2 & E3 & E4 & E5 & _ & _ & _ & E9 & _).
  rewrite E1, E2, E3, E4, E5, E9. repeat split; auto; lia.
Qed.

Lemma complete_order (lvl : Level) (w : World) :
  attemptOrder w (complete lvl w).
Proof.
  destruct (complete_frame lvl w)
    as ((E1 & E2 & E3 & _) & E4 & E5 & _ & E6 & _).
  unfold attemptOrder. rewrite E1, E2, E3, E4, E5, E6.
  repeat split; auto; lia.
Qed.

Lemma restart_order (w : World) : attemptOrder w (restart w).
Proof.
  unfold attemptOrder, restart, on_scene, wG. simpl.
  repeat split; auto; lia.
Qed.

Lemma update_order (lvl : Level) (i : Input) (w : World) :
  attemptOrder w (update lvl i w).
Proof.
  assert (H1 : attemptOrder w (powerTick (dt i) w))
    by (apply sameObjectives_order, powerTick_frame).
  assert (H2 : attemptOrder w
                 (on_scene (applyMoveAndJump i) (powerTick (dt i) w))).
  { eapply attemptOrder_trans; [ exact H1 | ].
    apply sameObjectives_order, applyMoveAndJump_frame. }
  destruct lvl; simpl; unfold Circulatory_update, Lungs_update;
    destruct (_completed (scene w)); try apply attemptOrder_refl;
    destruct (negb (body (player (scene (powerTick (dt i) w)))));
    try exact H1;
    repeat match goal with
      | |- context [if ?c then _ else _] => destruct c
      end;
    eauto using attemptOrder_trans, complete_order, restart_order.
Qed.

Lemma takeHit_order (t : Z) (w : World) : attemptOrder w (takeHit t w).
Proof.
  break_world w. unfold takeHit, attemptOrder; simpl.
  destruct (t - lh <? HIT_COOLDOWN_MS) eqn:E; simpl;
    [ repeat split; auto; lia | ].
  unfold HIT_COOLDOWN_MS in E.
  destruct (he - 10 <? 0) eqn:E'; simpl; repeat split; auto; lia.
Qed.

Lemma fire_order (lvl : Level) (e : Event) (w : World) :
  e <> ERestart -> attemptOrder w (fire lvl e w).
Proof.
  destruct e as [ | | | t i | t | i]; simpl; intros Hne.
  - contradiction.
  - break_world w. unfold orbOverlap, attemptOrder; simpl.
    destruct (en <? maxE lvl); simpl; repeat split; auto; lia.
  - break_world w. unfold powerupOverlap, attemptOrder; simpl.
    destruct lvl; simpl; repeat split; auto; lia.
  - unfold virusOverlap.
    destruct (viruses (scene w) !! i) as [v | ];
      [ | apply attemptOrder_refl ].
    destruct (negb (active v)); [ apply attemptOrder_refl | ].
    destruct (powerMode (wG w) && vulnerable v); [ | apply takeHit_order ].
    break_world w. unfold attemptOrder; simpl.
    destruct lvl; simpl; repeat split; auto; lia.
  - break_world w. unfold attemptOrder; simpl. repeat split; auto; lia.
  - apply update_order.
Qed.

Lemma run_order (lvl : Level) (es : list Event) (w w' : World) :
  run lvl es w = Some w' -> noRestart es = true -> attemptOrder w w'.
Proof.
  revert w. induction es as [ | e es IH]; simpl; intros w Hrun Hno.
  - injection Hrun as <-. apply attemptOrder_refl.
  - destruct (enabled e w); [ | discriminate ].
    apply andb_prop in Hno. destruct Hno as [He Hno].
    eapply attemptOrder_trans; [ | apply (IH _ Hrun Hno) ].
    apply fire_order. intros ->. discriminate.
Qed.

(** X3. Within one attempt (a run of events without a restart) nothing
    gained towards the goal is lost again: the energy and the score
    never go down, and [_brain] and [_virus] stay set once they are
    set. *)
Theorem objectives_never_regress
  (lvl : Level) (es : list Event) (w w' : World) :
  run lvl es w = Some w' ->
  noRestart es = true ->
  energy (wG w) <= energy (wG w') /\
  score (wG w) <= score (wG w') /\
  (_brain (scene w) = true -> _brain (scene w') = true) /\
  (_virus (scene w) = true -> _virus (scene w') = true).
Proof.
  intros Hrun Hno.
  destruct (run_order lvl es w w' Hrun Hno) as (A1 & A2 & A3 & A4 & _).
  auto.
Qed.

(** X4. Within one attempt, from a health that is not negative, the
    health never goes up and never below 0, and it goes down no faster
    than 10 points per 650 ms of clock between recorded hits: 65 times
    the health lost is at most the advance of [lastHitAt]. *)
Theorem damage_rate_is_bounded
  (lvl : Level) (es : list Event) (w w' : World) :
  run lvl es w = Some w' ->
  noRestart es = true ->
  0 <= health (wG w) ->
  0 <= health (wG w') <= health (wG w) /\
  lastHitAt (scene w) <= lastHitAt (scene w') /\
  65 * (health (wG w) - health (wG w'))
  <= lastHitAt (scene w') - lastHitAt (scene w).
Proof.
  intros Hrun Hno Hh.
  destruct (run_order lvl es w w' Hrun Hno) as (_ & _ & _ & _ & A5 & A6).
  destruct (A6 Hh) as (A7 & A8). auto.
Qed.

(** ** One power-up per attempt *)

Lemma update_powerMode_off (lvl : Level) (i : Input) (w : World) :
  powerMode (wG w) = false -> powerMode (wG (update lvl i w)) = false.
Proof.
  intros Hp.
  assert (H1 : powerTick (dt i) w = w) by (apply powerTick_off; exact Hp).
  destruct (applyMoveAndJump_frame i w) as (Hg & _).
  destruct lvl; simpl; unfold Circulatory_update, Lungs_update;
    rewrite H1;
    destruct (_completed (scene w)); try exact Hp;
    destruct (negb (body (player (scene w)))); try exact Hp;
    repeat match goal with
      | |- context [if ?c then _ else _] => destruct c
      | |- context [complete ?l ?x] =>
          let E := fresh in
          destruct (complete_frame l x) as ((_ & _ & _ & _ & E & _) & _);
          rewrite E; clear E
      | |- context [wG (restart ?x)] => rewrite (restart_G x)
      end; congruence.
Qed.

Lemma fire_powerMode_off (lvl : Level) (e : Event) (w : World) :
  e <> ERestart -> e <> EPowerup ->
  powerMode (wG w) = false -> powerMode (wG (fire lvl e w)) = false.
Proof.
  destruct e as [ | | | t i | t | i]; simpl; intros Hr Hp Hoff;
    try contradiction.
  - break_world w. unfold orbOverlap; simpl in *.
    destruct (en <? maxE lvl); exact Hoff.
  - unfold virusOverlap.
    destruct (viruses (scene w) !! i) as [v | ]; [ | exact Hoff ].
    destruct (negb (active v)); [ exact Hoff | ].
    rewrite Hoff. simpl.
    break_world w. unfold takeHit; simpl in *.
    destruct (t - lh <? HIT_COOLDOWN_MS); simpl; [ exact Hoff | ].
    destruct (he - 10 <? 0); exact Hoff.
  - exact Hoff.
  - apply update_powerMode_off. exact Hoff.
Qed.

Lemma run_after_powerup (lvl : Level) (es : list Event) (w w' : World) :
  AttemptInv lvl w ->
  _brain (scene w) = true ->
  run lvl es w = Some w' ->
  noRestart es = true ->
  ~ In EPowerup es /\
  (powerMode (wG w) = false -> powerMode (wG w') = false).
Proof.
  revert w. induction es as [ | e es IH]; simpl; intros w HI Hb Hrun Hno.
  - injection Hrun as <-. split; auto.
  - destruct (enabled e w) eqn:He; [ | discriminate ].
    apply andb_prop in Hno. destruct Hno as [Hne Hno].
    assert (Hr : e <> ERestart) by (intros ->; discriminate).
    assert (Hp : e <> EPowerup).
    { intros ->. simpl in He. rewrite (ai_powerup _ _ HI), Hb in He.
      rewrite andb_false_r in He. discriminate. }
    destruct (fire_order lvl e w Hr) as (_ & _ & Hb' & _).
    destruct (IH (fire lvl e w)) as [Hnin Hoff]; auto.
    { apply fire_AttemptInv; assumption. }
    split.
    + intros [-> | Hin]; [ contradiction | contradiction ].
    + intros Hpm. apply Hoff. apply fire_powerMode_off; assumption.
Qed.

(** X5. An attempt holds one power-up: once [_brain] is set the power-up
    overlap cannot fire again before a restart, so no run of the attempt
    contains it; and once power mode has run out it stays off for the
    rest of the attempt. Power mode is never on without [_brain]. *)
Theorem one_power_up_per_attempt
  (lvl : Level) (s0 : Session) (es : list Event) (w w' : World) :
  reachable lvl s0 w ->
  run lvl es w = Some w' ->
  noRestart es = true ->
  (powerMode (wG w) = true -> _brain (scene w) = true) /\
  (_brain (scene w) = true ->
   enabled EPowerup w = false /\
   ~ In EPowerup es /\
   (powerMode (wG w) = false -> powerMode (wG w') = false)).
Proof.
  intros Hr Hrun Hno.
  pose proof (reachable_AttemptInv lvl s0 w Hr) as HI.
  split; [ apply (ai_power_brain _ _ HI) | ].
  intros Hb. split.
  - simpl. rewrite (ai_powerup _ _ HI), Hb. apply andb_false_r.
  - apply (run_after_powerup lvl es w w' HI Hb Hrun Hno).
Qed.

(** ** How long power mode lasts *)

(** The frames of a run of ticks have elapsed times that add up to at
    least 0. *)
Lemma run_ticks_elapsed (lvl : Level) (fs : list Input) (w w' : World) :
  run lvl (map ETick fs) w = Some w' -> 0 <= sumZ (map dt fs).
Proof.
  revert w. induction fs as [ | i fs IH]; simpl; intros w Hrun; [ lia | ].
  destruct (negb (restartQueued (scene w)) && (0 <=? dt i)) eqn:He;
    [ | discriminate ].
  apply andb_prop in He. destruct He as [_ Hd].
  specialize (IH _ Hrun). lia.
Qed.

(** Ticks leave a completed level as it is. *)
Lemma run_ticks_completed (lvl : Level) (fs : list Input) (w w' : World) :
  _completed (scene w) = true ->
  run lvl (map ETick fs) w = Some w' -> w' = w.
Proof.
  intros Hc. induction fs as [ | i fs IH]; simpl; intros Hrun.
  - congruence.
  - destruct (negb (restartQueued (scene w)) && (0 <=? dt i));
      [ | discriminate ].
    rewrite update_completed in Hrun by exact Hc. apply IH. exact Hrun.
Qed.

Lemma run_ticks_power (lvl : Level) (fs : list Input) (w w' : World) :
  Inv lvl w ->
  run lvl (map ETick fs) w = Some w' ->
  _completed (scene w') = false ->
  (powerMode (wG w) = false ->
   powerMode (wG w') = false /\ powerTimer (wG w') = 0) /\
  (powerMode (wG w) = true ->
   (sumZ (map dt fs) < powerTimer (wG w) ->
    powerMode (wG w') = true /\
    powerTimer (wG w') = powerTimer (wG w) - sumZ (map dt fs)) /\
   (powerTimer (wG w) <= sumZ (map dt fs) ->
    powerMode (wG w') = false /\ powerTimer (wG w') = 0)).
Proof.
  revert w. induction fs as [ | i fs IH]; intros w HI Hrun Hc'.
  - simpl in Hrun. injection Hrun as <-. destruct HI as [HI _]. split.
    + intros Hp. split; [ exact Hp | apply (inv_power_off _ _ HI Hp) ].
    + intros Hp. pose proof (inv_power_on _ _ HI Hp) as Hpos. simpl.
      split; intros Hs; [ split; [ exact Hp | lia ] | lia ].
  - pose proof (run_ticks_elapsed lvl (i :: fs) w w' Hrun) as Hsum.
    simpl in Hrun, Hsum.
    destruct (negb (restartQueued (scene w)) && (0 <=? dt i)) eqn:He;
      [ | discriminate ].
    pose proof (run_ticks_elapsed lvl fs _ w' Hrun) as Hrest.
    assert (Hd : 0 <= dt i).
    { apply andb_prop in He. destruct He as [_ Hd]. lia. }
    assert (Hc : _completed (scene w) = false).
    { destruct (_completed (scene w)) eqn:Hc; [ | reflexivity ].
      rewrite update_completed in Hrun by exact Hc.
      rewrite (run_ticks_completed lvl fs w w' Hc Hrun) in Hc'.
      congruence. }
    assert (HI1 : Inv lvl (update lvl i w))
      by (apply update_Inv; assumption).
    destruct (IH (update lvl i w) HI1 Hrun Hc') as [IHoff IHon].
    destruct (update_live_power lvl i w Hc (inv_body _ _ (proj1 HI)))
      as (Hm & Ht & _).
    split.
    + intros Hp. apply IHoff. apply update_powerMode_off. exact Hp.
    + intros Hp. simpl.
      destruct (powerTick_power (dt i) w Hp) as [Hpos Hzero].
      destruct (Z_lt_le_dec 0 (powerTimer (wG w) - dt i)) as [Hlt | Hle].
      * destruct (Hpos Hlt) as (M & T & _).
        rewrite <- Hm in M. rewrite <- Ht in T.
        destruct (IHon M) as [IH1 IH2]. rewrite T in IH1, IH2.
        split; intros Hs.
        -- destruct IH1 as [A B]; [ lia | ]. split; [ exact A | lia ].
        -- apply IH2. lia.
      * destruct (Hzero Hle) as (M & _).
        rewrite <- Hm in M.
        split; intros Hs; [ lia | apply IHoff; exact M ].
Qed.

(** X6. In a level that is running and not completed, power mode lasts
    until the elapsed times of the frames add up to the remaining time.
    For frames whose elapsed times are whole numbers of milliseconds
    (on which the subtraction of the timer is exact): after the ticks
    of a run that leaves the level not completed, power mode is still
    on, with the sum taken off the timer, if the sum is below the
    remaining time, and it is off with the timer at 0 if the sum has
    reached it. *)
Theorem power_mode_lasts_for_remaining_time
  (lvl : Level) (s0 : Session) (fs : list Input) (w w' : World) :
  reachable lvl s0 w ->
  run lvl (map ETick fs) w = Some w' ->
  _completed (scene w') = false ->
  powerMode (wG w) = true ->
  0 < powerTimer (wG w) <= POWER_MS /\
  (sumZ (map dt fs) < powerTimer (wG w) ->
   powerMode (wG w') = true /\
   powerTimer (wG w') = powerTimer (wG w) - sumZ (map dt fs)) /\
  (powerTimer (wG w) <= sumZ (map dt fs) ->
   powerMode (wG w') = false /\ powerTimer (wG w') = 0).
Proof.
  intros Hr Hrun Hc Hp.
  pose proof (reachable_Inv lvl s0 w Hr) as HI.
  destruct (run_ticks_power lvl fs w w' HI Hrun Hc) as [_ Hon].
  destruct HI as [HI _].
  pose proof (inv_power_on _ _ HI Hp). pose proof (inv_timer _ _ HI).
  split; [ lia | apply Hon; exact Hp ].
Qed.

End AttemptProperties.

(** * Further properties of the progress store *)

(** The stored slot holds the record of the session's progress. *)
Definition synced `{JSON} (s : Session) : Prop :=
  sStore s = Some (JSON_stringify (Store.snapshot (progress_of (sG s)))).

(** [stars] is neither [undefined] nor [null]. *)
Definition starsSettled (p : Store.progress) : Prop :=
  Store.stars p <> VUndef /\ Store.stars p <> VNull.

(** Progress that only grows: no star lost, no system flag cleared, the
    facts extended at the end and still free of repetitions, and a
    store that holds the record keeps holding it. *)
Definition progressGrows `{JSON} (s s' : Session) : Prop :=
  stars (sG s) <= stars (sG s') /\
  (heart (systems (sG s)) = true -> heart (systems (sG s')) = true) /\
  (lungs (systems (sG s)) = true -> lungs (systems (sG s')) = true) /\
  (exists new, facts (sG s') = (facts (sG s) ++ new)%list) /\
  (NoDup (facts (sG s)) -> NoDup (facts (sG s'))) /\
  (synced s -> synced s').

Section StoreExtras.

Context `{JSON}.

Ltac break_world w :=
  destruct w as [[[sc he en lv pm pt sr [hs ls] fs] st]
                 [cp lh br vr [vx vy ptint bd] jb ct ob pu vs pa rq]].

Lemma load_of_written (p this : Store.progress) (st : storage) :
  starsSettled p ->
  Store.carries (Store.snapshot p) ->
  Store.load this (Store.persist p st) = Return p.
Proof.
  destruct p as [s [h l] fs]. intros [Hu Hn] [Hne Hback]. simpl in *.
  unfold Store.load, Store.loadProgress, Store.persist, Store.saveProgress.
  simpl Store.getItem_or_null.
  destruct (String.eqb _ "") eqn:Hempty.
  { apply String.eqb_eq in Hempty. contradiction. }
  rewrite Hback. simpl.
  destruct s, h, l; try reflexivity; contradiction.
Qed.

Lemma load_settles (this p : Store.progress) (st : storage) :
  starsSettled this ->
  Store.load this st = Return p ->
  starsSettled p.
Proof.
  intros Hthis. unfold Store.load.
  destruct (Store.loadProgress st) as [v | e]; simpl; [ | discriminate ].
  destruct (truthy v) eqn:Hv; simpl.
  - destruct (get v "stars") as [s | ]; simpl; [ | discriminate ].
    destruct (get v "systems") as [sys | ]; simpl; [ | discriminate ].
    destruct (get_opt sys "heart") as [h | ]; simpl; [ | discriminate ].
    destruct (get_opt sys "lungs") as [l | ]; simpl; [ | discriminate ].
    destruct (get v "facts") as [f | ]; simpl; [ | discriminate ].
    intros Hp. injection Hp as <-. unfold starsSettled. simpl.
    destruct s; simpl; split; discriminate.
  - intros Hp. injection Hp as <-. exact Hthis.
Qed.

(** X7. What [G.load] leaves in the progress fields is stable under the
    store: for any stored slot, the progress that [load] returns into a
    [G] whose [stars] is set has [stars] set (never [undefined] or
    [null]), and persisting it and loading again returns it unchanged,
    provided the codec carries the written record. This holds for
    records that did not come from the game as well. *)
Theorem loaded_progress_is_stable
  (this this' p : Store.progress) (st st' : storage) :
  starsSettled this ->
  Store.load this st = Return p ->
  Store.carries (Store.snapshot p) ->
  starsSettled p /\
  Store.load this' (Store.persist p st') = Return p.
Proof.
  intros Hthis Hload Hc.
  pose proof (load_settles this p st Hthis Hload) as Hp.
  split; [ exact Hp | ]. apply load_of_written; assumption.
Qed.

Lemma progress_of_settled (g : G) : starsSettled (progress_of g).
Proof.
  split; discriminate.
Qed.

Lemma progressGrows_refl (s : Session) : progressGrows s s.
Proof.
  unfold progressGrows. repeat split; auto; try lia.
  exists []. rewrite app_nil_r. reflexivity.
Qed.

Lemma progressGrows_trans (s1 s2 s3 : Session) :
  progressGrows s1 s2 -> progressGrows s2 s3 -> progressGrows s1 s3.
Proof.
  unfold progressGrows.
  intros (A1 & A2 & A3 & (n1 & A4) & A5 & A6)
    (B1 & B2 & B3 & (n2 & B4) & B5 & B6).
  repeat split; auto; try lia.
  exists (n1 ++ n2)%list. rewrite B4, A4, app_assoc. reflexivity.
Qed.

Lemma progressGrows_same (s s' : Session) :
  stars (sG s') = stars (sG s) ->
  systems (sG s') = systems (sG s) ->
  facts (sG s') = facts (sG s) ->
  sStore s' = sStore s ->
  progressGrows s s'.
Proof.
  intros E1 E2 E3 E4. unfold progressGrows, synced, progress_of.
  rewrite E1, E2, E3, E4. repeat split; auto; try lia.
  exists []. rewrite app_nil_r. reflexivity.
Qed.

Lemma includes_false_not_in (t : string) (l : list string) :
  includes t l = false -> ~ In t l.
Proof.
  unfold includes. intros Hf Hin.
  assert (Ht : existsb (String.eqb t) l = true).
  { apply existsb_exists. exists t. split; [ exact Hin | ].
    apply String.eqb_refl. }
  congruence.
Qed.

Lemma NoDup_snoc (t : string) (l : list string) :
  ~ In t l -> NoDup l -> NoDup (l ++ [t]).
Proof.
  intros Hnin Hnd. apply NoDup_app. repeat split.
  - exact Hnd.
  - intros x Hx Hx'. apply list_elem_of_In in Hx. apply list_elem_of_In in Hx'.
    simpl in Hx'. destruct Hx' as [<- | []]. contradiction.
  - apply NoDup_singleton.
Qed.

Lemma addStars_grows (n : Z) (s : Session) :
  0 <= n -> progressGrows s (addStars n s).
Proof.
  intros Hn. destruct (addStars_spec n s) as (E1 & E2 & E3 & _ & E5).
  unfold progressGrows, synced. rewrite E1, E2, E3, E5.
  repeat split; auto; try lia.
  exists []. rewrite app_nil_r. reflexivity.
Qed.

Lemma addFact_grows (t : string) (s : Session) :
  progressGrows s (addFact t s).
Proof.
  unfold addFact.
  destruct (includes t (facts (sG s))) eqn:Hin; simpl;
    [ apply progressGrows_refl | ].
  destruct s as [g st]. unfold progressGrows, synced; simpl.
  repeat split; auto; try lia.
  - exists [t]. reflexivity.
  - intros Hnd. apply NoDup_snoc; [ | exact Hnd ].
    apply includes_false_not_in. exact Hin.
Qed.

Lemma setSystem_true_grows (k : SystemKey) (s : Session) :
  progressGrows s (setSystem k true s).
Proof.
  destruct s as [g st]. unfold progressGrows, synced; simpl.
  repeat split; auto; try lia.
  - destruct k; simpl; auto.
  - destruct k; simpl; auto.
  - exists []. rewrite app_nil_r. reflexivity.
Qed.

Lemma grant_grows (lvl : Level) (s : Session) :
  progressGrows s (grant lvl s).
Proof.
  unfold grant.
  eapply progressGrows_trans; [ apply (addStars_grows 1); lia | ].
  eapply progressGrows_trans; [ apply addFact_grows | ].
  eapply progressGrows_trans; [ apply addFact_grows | ].
  apply setSystem_true_grows.
Qed.

Lemma grant_synced (lvl : Level) (s : Session) : synced (grant lvl s).
Proof.
  destruct (grant_spec lvl s) as (_ & _ & _ & _ & _ & _ & E). exact E.
Qed.

Lemma sameProgress_grows (w w' : World) :
  sameProgress w w' -> progressGrows (session w) (session w').
Proof.
  intros (E1 & E2 & E3 & E4). apply progressGrows_same; assumption.
Qed.

Lemma update_live_session (lvl : Level) (i : Input) (w : World) :
  _completed (scene w) = false ->
  body (player (scene w)) = true ->
  session (update lvl i w)
  = (if objectivesMet lvl w
     then grant lvl (session (afterController i w))
     else session (afterController i w)).
Proof.
  intros Hc Hb. rewrite update_live by assumption.
  fold (afterController i w). cbv zeta.
  destruct (afterController_frame i w)
    as (_ & (_ & _ & _ & _ & _ & C2 & _)).
  assert (Hc2 : _completed (scene (afterController i w)) = false)
    by congruence.
  destruct (objectivesMet lvl w), (health (wG w) <=? 0);
    rewrite ?(complete_live lvl _ Hc2); reflexivity.
Qed.

Lemma fire_grows (lvl : Level) (e : Event) (w : World) :
  Inv lvl w -> progressGrows (session w) (session (fire lvl e w)).
Proof.
  intros [HI _]. destruct e as [ | | | t i | t | i]; simpl.
  - destruct w as [[g st] sc]. apply progressGrows_same; reflexivity.
  - apply sameProgress_grows. break_world w. unfold orbOverlap; simpl.
    destruct (en <? maxE lvl); repeat split.
  - destruct w as [[g st] sc]. apply progressGrows_same; reflexivity.
  - unfold virusOverlap.
    destruct (viruses (scene w) !! i) as [v | ];
      [ | apply progressGrows_refl ].
    destruct (negb (active v)); [ apply progressGrows_refl | ].
    destruct (powerMode (wG w) && vulnerable v).
    + destruct w as [[g st] sc]. apply progressGrows_same; reflexivity.
    + apply sameProgress_grows. break_world w. unfold takeHit; simpl.
      destruct (t - lh <? HIT_COOLDOWN_MS); simpl; [ repeat split | ].
      destruct (he - 10 <? 0); repeat split.
  - apply progressGrows_refl.
  - destruct (_completed (scene w)) eqn:Hc.
    { rewrite update_completed by exact Hc. apply progressGrows_refl. }
    rewrite (update_live_session lvl i w Hc (inv_body _ _ HI)).
    destruct (afterController_frame i w) as (HP & _).
    apply sameProgress_grows in HP.
    destruct (objectivesMet lvl w); [ | exact HP ].
    eapply progressGrows_trans; [ exact HP | apply grant_grows ].
Qed.

Lemma run_grows (lvl : Level) (es : list Event) (w w' : World) :
  Inv lvl w -> run lvl es w = Some w' ->
  progressGrows (session w) (session w').
Proof.
  revert w. induction es as [ | e es IH]; simpl; intros w HI Hrun.
  - injection Hrun as <-. apply progressGrows_refl.
  - destruct (enabled e w) eqn:He; [ | discriminate ].
    eapply progressGrows_trans; [ apply (fire_grows lvl e w HI) | ].
    apply IH; [ apply fire_Inv; assumption | exact Hrun ].
Qed.

Lemma reachable_grows (lvl : Level) (s0 : Session) (w : World) :
  reachable lvl s0 w -> progressGrows s0 (session w).
Proof.
  intros [es Hrun].
  eapply progressGrows_trans;
    [ | apply (run_grows lvl es (create lvl s0)); [ apply create_Inv | exact Hrun ] ].
  destruct s0 as [g st]. apply progressGrows_same; reflexivity.
Qed.

(** X8. During a level run the learned facts are only ever extended at
    the end: the facts the session began with stay where they are, and
    if they held no fact twice, the list never does. *)
Theorem facts_are_append_only
  (lvl : Level) (s0 : Session) (w : World) :
  reachable lvl s0 w ->
  (exists new, facts (wG w) = (facts (sG s0) ++ new)%list) /\
  (NoDup (facts (sG s0)) -> NoDup (facts (wG w))).
Proof.
  intros Hr.
  destruct (reachable_grows lvl s0 w Hr) as (_ & _ & _ & A4 & A5 & _).
  split; assumption.
Qed.

(** X9. A level run never takes progress away: the star count never
    goes down, whatever its value, and a system flagged repaired stays
    flagged. *)
Theorem level_run_keeps_stars_and_systems
  (lvl : Level) (s0 : Session) (w : World) :
  reachable lvl s0 w ->
  stars (sG s0) <= stars (wG w) /\
  (heart (systems (sG s0)) = true -> heart (systems (wG w)) = true) /\
  (lungs (systems (sG s0)) = true -> lungs (systems (wG w)) = true).
Proof.
  intros Hr.
  destruct (reachable_grows lvl s0 w Hr) as (A1 & A2 & A3 & _).
  auto.
Qed.

Lemma takeHit_frame_completed (t : Z) (w : World) :
  _completed (scene (takeHit t w)) = _completed (scene w).
Proof.
  break_world w. unfold takeHit; simpl.
  destruct (t - lh <? HIT_COOLDOWN_MS); simpl; [ reflexivity | ].
  destruct (he - 10 <? 0); reflexivity.
Qed.

Lemma fire_completed_synced (lvl : Level) (e : Event) (w : World) :
  Inv lvl w ->
  (_completed (scene w) = true -> synced (session w)) ->
  _completed (scene (fire lvl e w)) = true ->
  synced (session (fire lvl e w)).
Proof.
  intros HI Hs Hc'.
  destruct (_completed (scene w)) eqn:Hc.
  - destruct (fire_grows lvl e w HI) as (_ & _ & _ & _ & _ & Hsy).
    apply Hsy, Hs. reflexivity.
  - destruct HI as [HI _].
    destruct e as [ | | | t i | t | i]; simpl in *.
    + discriminate.
    + break_world w. unfold orbOverlap in Hc'. simpl in *.
      destruct (en <? maxE lvl); simpl in Hc'; congruence.
    + destruct w as [s sc]. simpl in *. congruence.
    + unfold virusOverlap in Hc'.
      destruct (viruses (scene w) !! i) as [v | ]; [ | congruence ].
      destruct (negb (active v)); [ congruence | ].
      destruct (powerMode (wG w) && vulnerable v).
      * destruct w as [s sc]. simpl in *. congruence.
      * rewrite takeHit_frame_completed in Hc'. congruence.
    + destruct w as [s sc]. simpl in *. congruence.
    + rewrite (update_live_session lvl i w Hc (inv_body _ _ HI)).
      destruct (update_live_outcome lvl i w Hc (inv_body _ _ HI)) as [_ Hn].
      destruct (objectivesMet lvl w); [ apply grant_synced | ].
      destruct (Hn eq_refl) as (Hc'' & _). congruence.
Qed.

Lemma run_completed_synced (lvl : Level) (es : list Event) (w w' : World) :
  Inv lvl w ->
  (_completed (scene w) = true -> synced (session w)) ->
  run lvl es w = Some w' ->
  _completed (scene w') = true -> synced (session w').
Proof.
  revert w. induction es as [ | e es IH]; simpl; intros w HI Hs Hrun.
  - injection Hrun as <-. exact Hs.
  - destruct (enabled e w) eqn:He; [ | discriminate ].
    apply (IH (fire lvl e w)); [ apply fire_Inv; assumption | | exact Hrun ].
    apply fire_completed_synced; assumption.
Qed.

(** X10. The reward of a level is on disk as soon as the level is
    completed: in every state of a level run in which the level is
    marked completed, the stored slot holds the record of the current
    stars, systems and facts, and loading it (with a codec that carries
    that record) returns exactly them. A slot that held the session's
    record when the level began holds the current one throughout. *)
Theorem completed_level_is_stored
  (lvl : Level) (s0 : Session) (w : World) (this : Store.progress) :
  reachable lvl s0 w ->
  _completed (scene w) = true \/ synced s0 ->
  synced (session w) /\
  (Store.carries (Store.snapshot (progress_of (wG w))) ->
   Store.load this (wStore w) = Return (progress_of (wG w))).
Proof.
  intros Hr Hcase.
  assert (Hs : synced (session w)).
  { destruct Hcase as [Hc | Hs0].
    - destruct Hr as [es Hrun].
      apply (run_completed_synced lvl es (create lvl s0) w);
        [ apply create_Inv | discriminate | exact Hrun | exact Hc ].
    - destruct (reachable_grows lvl s0 w Hr) as (_ & _ & _ & _ & _ & Hsy).
      apply Hsy, Hs0. }
  split; [ exact Hs | ].
  intros Hc. unfold wStore. rewrite Hs.
  apply (load_of_written (progress_of (wG w)) this None);
    [ apply progress_of_settled | exact Hc ].
Qed.

End StoreExtras.

(** * Further properties of the hub *)

Section HubExtras.

Context `{JSON}.

Lemma pointerdown_lungsListening (b : Button) (h : Hub) :
  heartListening h = canRepair (hG h) ->
  lungsListening h = heart (systems (hG h)) ->
  lungsListening (pointerdown b h) = heart (systems (hG (pointerdown b h))).
Proof.
  destruct h as [[g st] hl ll ts sd]. unfold hG; simpl. intros -> ->.
  destruct b; simpl.
  - destruct (canRepair g) eqn:Hcan; [ | reflexivity ].
    unfold heartOnClick, hG; simpl.
    unfold canRepair in Hcan. apply andb_prop in Hcan.
    destruct Hcan as [Hh Hs].
    destruct (heart (systems g)); [ discriminate | ].
    destruct (stars g <? 1) eqn:E; [ lia | ]. reflexivity.
  - destruct (heart (systems g)) eqn:Hh; [ | simpl; auto ].
    unfold lungsOnClick, hG; simpl. rewrite Hh. simpl. exact (eq_sym Hh).
  - reflexivity.
Qed.

Lemma hubAfter_lungsListening (bs : list Button) (s : Session) :
  lungsListening (hubAfter bs s) = heart (systems (hG (hubAfter bs s))).
Proof.
  assert (Hboth : heartListening (hubAfter bs s)
                  = canRepair (hG (hubAfter bs s)) /\
                  lungsListening (hubAfter bs s)
                  = heart (systems (hG (hubAfter bs s)))).
  { unfold hubAfter. induction bs as [ | b bs IH] using rev_ind.
    - split; reflexivity.
    - rewrite fold_left_app. simpl. destruct IH as [IH1 IH2]. split.
      + apply pointerdown_listening. exact IH1.
      + apply pointerdown_lungsListening; assumption. }
  apply Hboth.
Qed.

(** X11. From the hub the lungs level can be started exactly when the
    heart is repaired: with the heart not repaired the lungs button
    carries no listener and a press changes nothing (no notice either);
    with the heart repaired the press starts the lungs level with
    [G.level] set to 2 and leaves stars, systems, facts, the stored slot
    and the toasts alone. The replay button always starts the
    circulatory level with [G.level] set to 1, progress untouched. *)
Theorem lungs_start_needs_repaired_heart (s : Session) (bs : list Button) :
  (heart (systems (hG (hubAfter bs s))) = false ->
   pointerdown LungsBtn (hubAfter bs s) = hubAfter bs s) /\
  (heart (systems (hG (hubAfter bs s))) = true ->
   started (pointerdown LungsBtn (hubAfter bs s)) = Some LungsLevel /\
   level (hG (pointerdown LungsBtn (hubAfter bs s))) = 2 /\
   progress_of (hG (pointerdown LungsBtn (hubAfter bs s)))
   = progress_of (hG (hubAfter bs s)) /\
   sStore (hSession (pointerdown LungsBtn (hubAfter bs s)))
   = sStore (hSession (hubAfter bs s)) /\
   toasts (pointerdown LungsBtn (hubAfter bs s)) = toasts (hubAfter bs s)) /\
  (started (pointerdown ReplayBtn (hubAfter bs s)) = Some CirculatoryLevel /\
   level (hG (pointerdown ReplayBtn (hubAfter bs s))) = 1 /\
   progress_of (hG (pointerdown ReplayBtn (hubAfter bs s)))
   = progress_of (hG (hubAfter bs s)) /\
   sStore (hSession (pointerdown ReplayBtn (hubAfter bs s)))
   = sStore (hSession (hubAfter bs s))).
Proof.
  pose proof (hubAfter_lungsListening bs s) as Hl.
  set (h := hubAfter bs s) in *.
  destruct h as [[g st] hl ll ts sd]. unfold hG in *; simpl in *. subst ll.
  split; [ | split ].
  - intros ->. reflexivity.
  - intros Hh. rewrite Hh. unfold lungsOnClick, hG; simpl. rewrite Hh. simpl.
    repeat split.
  - repeat split.
Qed.

(** What a visit to the hub can have done to the session: nothing to
    stars, systems and store, or the one repair of the heart. *)
Definition hubOutcome (s : Session) (h : Hub) : Prop :=
  facts (hG h) = facts (sG s) /\
  lungs (systems (hG h)) = lungs (systems (sG s)) /\
  ((stars (hG h) = stars (sG s) /\
    heart (systems (hG h)) = heart (systems (sG s)) /\
    sStore (hSession h) = sStore s) \/
   (heart (systems (sG s)) = false /\ 1 <= stars (sG s) /\
    stars (hG h) = stars (sG s) - 1 /\
    heart (systems (hG h)) = true /\
    synced (hSession h))).

Lemma pointerdown_outcome (s : Session) (b : Button) (h : Hub) :
  heartListening h = canRepair (hG h) ->
  hubOutcome s h -> hubOutcome s (pointerdown b h).
Proof.
  intros Hl (Hf & Hlu & Hcase). destruct b; simpl.
  - rewrite Hl. destruct (canRepair (hG h)) eqn:Hcan;
      [ | split; [ exact Hf | split; [ exact Hlu | exact Hcase ] ] ].
    unfold canRepair in Hcan. apply andb_prop in Hcan.
    destruct Hcan as [Hh Hs].
    assert (Hh' : heart (systems (hG h)) = false)
      by (destruct (heart (systems (hG h))); [ discriminate | reflexivity ]).
    assert (Hs' : 1 <= stars (hG h)) by lia.
    destruct (heartOnClick_repairs h Hh' Hs') as (A & B & C & D & _).
    destruct Hcase as [(E1 & E2 & E3) | (_ & _ & _ & E4 & _)];
      [ | congruence ].
    split; [ congruence | ]. split; [ rewrite B; simpl; exact Hlu | ].
    right. rewrite B. simpl.
    repeat split; try congruence; try lia. exact D.
  - destruct (lungsListening h); [ | split; [ exact Hf | split; assumption ] ].
    unfold lungsOnClick.
    destruct (negb (heart (systems (hG h))));
      [ split; [ exact Hf | split; assumption ] | ].
    destruct h as [[g st] hl ll ts sd]. unfold hG, hubOutcome, synced in *.
    simpl in *. split; [ exact Hf | split; assumption ].
  - destruct h as [[g st] hl ll ts sd]. unfold hG, hubOutcome, synced in *.
    simpl in *. split; [ exact Hf | split; assumption ].
Qed.

(** X12. A visit to the hub costs at most one star: whatever is pressed
    and however often, facts and the lungs flag stay as they were, and
    either stars, heart flag and stored slot are untouched, or the heart
    was unrepaired with at least one star, exactly one star is gone,
    the heart is flagged repaired and the stored slot holds the new
    record. *)
Theorem hub_costs_at_most_one_star (s : Session) (bs : list Button) :
  facts (hG (hubAfter bs s)) = facts (sG s) /\
  lungs (systems (hG (hubAfter bs s))) = lungs (systems (sG s)) /\
  stars (sG s) - 1 <= stars (hG (hubAfter bs s)) <= stars (sG s) /\
  ((stars (hG (hubAfter bs s)) = stars (sG s) /\
    heart (systems (hG (hubAfter bs s))) = heart (systems (sG s)) /\
    sStore (hSession (hubAfter bs s)) = sStore s) \/
   (heart (systems (sG s)) = false /\ 1 <= stars (sG s) /\
    stars (hG (hubAfter bs s)) = stars (sG s) - 1 /\
    heart (systems (hG (hubAfter bs s))) = true /\
    synced (hSession (hubAfter bs s)))).
Proof.
  assert (Hout : hubOutcome s (hubAfter bs s)).
  { induction bs as [ | b bs IH] using rev_ind.
    - unfold hubOutcome, hubAfter, hG. simpl.
      split; [ reflexivity | ]. split; [ reflexivity | ]. left. auto.
    - pose proof (hubAfter_listening bs s) as Hl.
      unfold hubAfter in *. rewrite fold_left_app. simpl.
      apply pointerdown_outcome; assumption. }
  destruct Hout as (Hf & Hlu & Hcase).
  split; [ exact Hf | ]. split; [ exact Hlu | ].
  split; [ | exact Hcase ].
  destruct Hcase as [(E & _) | (_ & _ & E & _)]; lia.
Qed.

End HubExtras.

(** * Further properties of the player controller *)

(** No frame of the run finds the player on the ground. *)
Definition airborne (es : list KeyEvent) : Prop :=
  Forall (fun e => match e with
                   | Frame i => onGround i = false
                   | Press _ => True
                   end) es.

Section ControllerExtras.

Lemma airborne_no_jump (es : list KeyEvent) (s : Scene) :
  coyoteTime s = 0 ->
  clockPastWindows es ->
  airborne es ->
  countJumps es s = 0%nat /\ coyoteTime (controlAll es s) = 0.
Proof.
  revert s. induction es as [ | e es IH]; intros s Hc Hclk Hair.
  - split; [ reflexivity | exact Hc ].
  - inversion Hclk as [ | e1 l1 He1 Hclk']; subst.
    inversion Hair as [ | e2 l2 He2 Hair']; subst.
    destruct e as [t | i]; simpl in *.
    + apply IH; auto.
    + assert (Hj : jumps i s = false).
      { destruct (jumps i s) eqn:Hj; [ | reflexivity ].
        apply jumps_iff in Hj. destruct Hj as [_ [Hg | Hcoy]];
          [ congruence | ].
        rewrite Hc in Hcoy. lia. }
      rewrite Hj. simpl.
      destruct (applyMoveAndJump_cases i s) as [_ Hn].
      destruct (Hn Hj) as (Heq & _ & _).
      apply IH; auto. rewrite Heq.
      destruct (applyMove_fields i s) as (_ & -> & _). rewrite He2. exact Hc.
Qed.

(** X13. There is no second jump in mid-air: after a frame that took the
    jump, no later frame takes one until some frame finds the player on
    the ground again, however often UP is pressed meanwhile (for frames
    that read a clock past the 140 ms windows). *)
Theorem no_second_jump_in_mid_air
  (i : Input) (s : Scene) (es : list KeyEvent) :
  jumps i s = true ->
  clockPastWindows es ->
  airborne es ->
  countJumps es (applyMoveAndJump i s) = 0%nat /\
  countJumps (Frame i :: es) s = 1%nat.
Proof.
  intros Hj Hclk Hair.
  destruct (applyMoveAndJump_cases i s) as [Hy _].
  destruct (Hy Hj) as (_ & _ & Hc).
  destruct (airborne_no_jump es (applyMoveAndJump i s) Hc Hclk Hair)
    as [Hzero _].
  split; [ exact Hzero | ].
  simpl. rewrite Hj, Hzero. reflexivity.
Qed.

End ControllerExtras.

(** * The scenes of the game and the way through them *)

(** A slide of the cinematic. *)
Record Slide : Type := mkSlide { title : string; text : string }.

(** [const slides = [...]] of [CinematicScene.create]. *)
Definition slides : list Slide :=
  [ mkSlide "Mission: Save the Body"
      "You’re a MicroMedic—shrunk to cell size to chase pathogens and stabilize body systems.";
    mkSlide "How to Play"
      "Move ← →, Jump ↑. Collect ⚡ energy, grab 🧠 power-ups, and chomp 🦠 while in power mode.";
    mkSlide "Why It Matters"
      "Every system you stabilize unlocks a real anatomy fact. Earn ⭐ to repair and unlock more systems." ].

(** The scene that is running, with what it works on. [Crashed] stands
    for a scene whose code raised: [render] reads [s.title] of
    [slides[this.slide]], which is [undefined] past the last slide. *)
Inductive Running : Type :=
| Title (s : Session)
| MissionBrief (s : Session)
| Cinematic (shown : Slide) (s : Session)
| TravelToHeart (s : Session)
| Playing (lvl : Level) (w : World)
| TravelHL (s : Session)
| BodyMap (h : Hub)
| Crashed.

(** The game: the running scene, and the slide counter of the cinematic
    scene object, which its constructor sets to 0 and [create] leaves
    alone. *)
Record Game : Type := mkGame { slide : nat; running : Running }.

(** What the player or the engine does next. *)
Inductive Action : Type :=
| AStartMission          (* START MISSION on the title *)
| AViewBriefing          (* View Briefing on the mission brief *)
| ANext                  (* Next on the cinematic *)
| ASkip                  (* Skip on the cinematic *)
| ATweenDone             (* the travel tween completes *)
| ALevel (e : Event)     (* an event of the running level *)
| AContinue              (* the button [complete] adds to a level *)
| AHub (b : Button).     (* a press on a hub button *)

(** [BootScene.create] ends in [this.scene.start("Title")]. *)
Definition boot (s : Session) : Game := mkGame 0 (Title s).

(** [render()], and what becomes of the scene. *)
Definition render (k : nat) (s : Session) : Running :=
  match slides !! k with
  | Some sl => Cinematic sl s
  | None => Crashed
  end.

Section GameFlow.

Context `{JSON}.

Definition act (a : Action) (g : Game) : option Game :=
  match running g, a with
  | Title s, AStartMission => Some (mkGame (slide g) (MissionBrief s))
  | MissionBrief s, AViewBriefing => Some (mkGame (slide g) (render (slide g) s))
  | Cinematic _ s, ANext =>
      let k := S (slide g) in
      if (length slides <=? k)%nat
      then Some (mkGame k (TravelToHeart s))
      else Some (mkGame k (render k s))
  | Cinematic _ s, ASkip => Some (mkGame (slide g) (TravelToHeart s))
  | TravelToHeart s, ATweenDone =>
      Some (mkGame (slide g) (Playing CirculatoryLevel
                                (create CirculatoryLevel s)))
  | Playing lvl w, ALevel e =>
      if enabled e w then Some (mkGame (slide g) (Playing lvl (fire lvl e w)))
      else None
  | Playing lvl w, AContinue =>
      if _completed (scene w)
      then Some (mkGame (slide g)
                   (match lvl with
                    | CirculatoryLevel => TravelHL (session w)
                    | LungsLevel => BodyMap (BodyMap_create (session w))
                    end))
      else None
  | TravelHL s, ATweenDone =>
      Some (mkGame (slide g) (Playing LungsLevel (create LungsLevel s)))
  | BodyMap h, AHub b =>
      let h' := pointerdown b h in
      Some (mkGame (slide g)
              (match started h' with
               | Some lvl => Playing lvl (create lvl (hSession h'))
               | None => BodyMap h'
               end))
  | _, _ => None
  end.

Fixpoint play (acts : list Action) (g : Game) : option Game :=
  match acts with
  | [] => Some g
  | a :: acts' =>
      match act a g with
      | Some g' => play acts' g'
      | None => None
      end
  end.

(** The session a scene works on. *)
Definition sessionOf (r : Running) : option Session :=
  match r with
  | Title s | MissionBrief s | Cinematic _ s | TravelToHeart s | TravelHL s =>
      Some s
  | Playing _ w => Some (session w)
  | BodyMap h => Some (hSession h)
  | Crashed => None
  end.

End GameFlow.

Section GameFlowProperties.

Context `{JSON}.

(** The flag that the completion of a level sets. *)
Definition flagOf (lvl : Level) (sys : Systems) : bool :=
  match lvl with CirculatoryLevel => heart sys | LungsLevel => lungs sys end.

Lemma grant_flag (lvl : Level) (s : Session) :
  flagOf lvl (systems (sG (grant lvl s))) = true.
Proof.
  destruct (grant_spec lvl s) as (_ & -> & _). destruct lvl; reflexivity.
Qed.

Lemma grows_flag (lvl : Level) (s s' : Session) :
  progressGrows s s' ->
  flagOf lvl (systems (sG s)) = true -> flagOf lvl (systems (sG s')) = true.
Proof.
  intros (_ & Hh & Hl & _). destruct lvl; simpl; auto.
Qed.

Lemma scene_events_keep_live (lvl : Level) (e : Event) (w : World) :
  (match e with ETick _ => False | ERestart => False | _ => True end) ->
  _completed (scene (fire lvl e w)) = _completed (scene w).
Proof.
  destruct w as [[[sc he en lv pm pt sr [hs ls] fs] st]
                 [cp lh br vr [vx vy ptint bd] jb ct ob pu vs pa rq]].
  destruct e as [ | | | t i | t | i]; simpl; intros He; try contradiction.
  - unfold orbOverlap; simpl. destruct (en <? maxE lvl); reflexivity.
  - reflexivity.
  - unfold virusOverlap; simpl.
    destruct (vs !! i) as [v | ]; [ | reflexivity ].
    destruct (negb (active v)); [ reflexivity | ].
    destruct (pm && vulnerable v); [ reflexivity | ].
    unfold takeHit; simpl.
    destruct (t - lh <? HIT_COOLDOWN_MS); simpl; [ reflexivity | ].
    destruct (he - 10 <? 0); reflexivity.
  - reflexivity.
Qed.

Lemma fire_completed_flag (lvl : Level) (e : Event) (w : World) :
  Inv lvl w ->
  (_completed (scene w) = true -> flagOf lvl (systems (wG w)) = true) ->
  _completed (scene (fire lvl e w)) = true ->
  flagOf lvl (systems (wG (fire lvl e w))) = true.
Proof.
  intros HI Hs Hc'.
  destruct (_completed (scene w)) eqn:Hc.
  - apply (grows_flag lvl (session w)); [ apply fire_grows; exact HI | ].
    apply Hs. reflexivity.
  - destruct e as [ | | | t i | t | i];
      try (rewrite scene_events_keep_live in Hc' by exact I; congruence).
    + simpl in Hc'. discriminate.
    + destruct HI as [HI _]. simpl in *. unfold wG.
      rewrite (update_live_session lvl i w Hc (inv_body _ _ HI)).
      destruct (update_live_outcome lvl i w Hc (inv_body _ _ HI)) as [_ Hn].
      destruct (objectivesMet lvl w); [ apply grant_flag | ].
      destruct (Hn eq_refl) as (Hc'' & _). congruence.
Qed.

(** What holds of the game at every point of every way through it. *)
Definition GameInv (g : Game) : Prop :=
  match running g with
  | Title _ | MissionBrief _ => slide g = 0%nat
  | Cinematic sl _ => slides !! slide g = Some sl
  | TravelToHeart _ => True
  | Playing lvl w =>
      Inv lvl w /\
      (lvl = LungsLevel -> heart (systems (wG w)) = true) /\
      (_completed (scene w) = true -> flagOf lvl (systems (wG w)) = true)
  | TravelHL s => heart (systems (sG s)) = true
  | BodyMap h =>
      heart (systems (hG h)) = true /\ lungs (systems (hG h)) = true /\
      heartListening h = false /\ lungsListening h = true /\
      started h = None
  | Crashed => False
  end.

Lemma create_heart (lvl : Level) (s : Session) :
  systems (wG (create lvl s)) = systems (sG s).
Proof.
  destruct s as [g st]. reflexivity.
Qed.

Lemma act_GameInv (a : Action) (g g' : Game) :
  GameInv g -> act a g = Some g' -> GameInv g'.
Proof.
  destruct g as [k r]. unfold GameInv, act; cbn [running slide].
  destruct r as [s | s | sl s | s | lvl w | s | h | ]; intros HI Ha;
    destruct a; try discriminate.
  - injection Ha as <-. exact HI.
  - injection Ha as <-. subst k. simpl. reflexivity.
  - pose proof (lookup_lt_Some _ _ _ HI) as Hlt. simpl in Hlt.
    destruct (length slides <=? S k)%nat eqn:E.
    + injection Ha as <-. exact I.
    + injection Ha as <-. simpl. apply Nat.leb_gt in E.
      unfold render. destruct (slides !! S k) as [sl' | ] eqn:Hk;
        [ exact Hk | ].
      apply lookup_ge_None in Hk. simpl in *. lia.
  - injection Ha as <-. exact I.
  - injection Ha as <-. simpl.
    split; [ apply create_Inv | ]. split; discriminate.
  - destruct HI as (HI & Hh & Hc).
    destruct (enabled e w) eqn:He; [ | discriminate ].
    injection Ha as <-. simpl.
    split; [ apply fire_Inv; assumption | ]. split.
    + intros Hl. destruct (fire_grows lvl e w HI) as (_ & Hhh & _).
      apply Hhh, Hh, Hl.
    + apply fire_completed_flag; assumption.
  - destruct HI as (HI & Hh & Hc).
    destruct (_completed (scene w)) eqn:Hcd; [ | discriminate ].
    injection Ha as <-. specialize (Hc eq_refl).
    destruct lvl; simpl in *.
    + exact Hc.
    + specialize (Hh eq_refl). unfold hG, canRepair. simpl.
      unfold wG in *. rewrite Hh, Hc. auto.
  - injection Ha as <-. cbn [running].
    split; [ apply create_Inv | ]. split.
    + intros _. rewrite create_heart. exact HI.
    + discriminate.
  - destruct HI as (Hh & Hl & Hhl & Hll & Hst).
    injection Ha as <-.
    destruct h as [[gg st] hl ll ts sd]. unfold hG in *. simpl in *.
    subst hl ll sd.
    destruct b; simpl.
    + auto.
    + unfold lungsOnClick, hG; cbn [hSession sG]. rewrite Hh.
      cbn [negb sceneStart hub_on_session started hSession].
      split; [ apply create_Inv | ]. split; [ | discriminate ].
      intros _. rewrite create_heart. exact Hh.
    + split; [ apply create_Inv | ]. split; discriminate.
Qed.

Lemma boot_GameInv (s : Session) : GameInv (boot s).
Proof.
  reflexivity.
Qed.

Lemma play_GameInv (acts : list Action) (g g' : Game) :
  GameInv g -> play acts g = Some g' -> GameInv g'.
Proof.
  revert g. induction acts as [ | a acts IH]; simpl; intros g HI Hp.
  - injection Hp as <-. exact HI.
  - destruct (act a g) as [g1 | ] eqn:Ha; [ | discriminate ].
    apply (IH g1); [ apply (act_GameInv a g); assumption | exact Hp ].
Qed.

(** X14. On every way through the game, from the title on and for any
    session to begin with: no scene raises (the cinematic never reads a
    slide past the last one); the lungs level only ever runs with the
    heart flagged repaired; and the hub is only ever shown with both
    heart and lungs flagged repaired, so its heart button never carries
    a listener and its lungs button always does. *)
Theorem flow_keeps_scenes_in_order
  (s0 : Session) (acts : list Action) (g : Game) :
  play acts (boot s0) = Some g ->
  running g <> Crashed /\
  (forall sl s, running g = Cinematic sl s -> slides !! slide g = Some sl) /\
  (forall w, running g = Playing LungsLevel w ->
             heart (systems (wG w)) = true) /\
  (forall s, running g = TravelHL s -> heart (systems (sG s)) = true) /\
  (forall h, running g = BodyMap h ->
             heart (systems (hG h)) = true /\
             lungs (systems (hG h)) = true /\
             heartListening h = false /\ lungsListening h = true).
Proof.
  intros Hp.
  pose proof (play_GameInv acts (boot s0) g (boot_GameInv s0) Hp) as HI.
  unfold GameInv in HI.
  split; [ intros Hc; rewrite Hc in HI; exact HI | ].
  split; [ intros sl s Hr; rewrite Hr in HI; exact HI | ].
  split; [ intros w Hr; rewrite Hr in HI; apply HI; reflexivity | ].
  split; [ intros s Hr; rewrite Hr in HI; exact HI | ].
  intros h Hr. rewrite Hr in HI.
  destruct HI as (A & B & C & D & _). auto.
Qed.

Lemma act_grows (a : Action) (g g' : Game) (s : Session) :
  GameInv g ->
  act a g = Some g' ->
  sessionOf (running g) = Some s ->
  exists s', sessionOf (running g') = Some s' /\ progressGrows s s'.
Proof.
  destruct g as [k r]. unfold GameInv, act; cbn [running slide].
  destruct r as [s1 | s1 | sl s1 | s1 | lvl w | s1 | h | ];
    intros HI Ha Hs; try discriminate;
    injection Hs as <-; destruct a; try discriminate.
  - injection Ha as <-. eexists. split; [ reflexivity | ].
    apply progressGrows_refl.
  - injection Ha as <-. subst k. eexists. split; [ reflexivity | ].
    apply progressGrows_refl.
  - destruct (length slides <=? S k)%nat eqn:E; injection Ha as <-.
    + eexists. split; [ reflexivity | apply progressGrows_refl ].
    + pose proof (lookup_lt_Some _ _ _ HI) as Hlt. apply Nat.leb_gt in E.
      unfold render. cbn [running].
      destruct (slides !! S k) as [sl' | ] eqn:Hk.
      * eexists. split; [ reflexivity | apply progressGrows_refl ].
      * apply lookup_ge_None in Hk. lia.
  - injection Ha as <-. eexists. split; [ reflexivity | ].
    apply progressGrows_refl.
  - injection Ha as <-. eexists. split; [ reflexivity | ].
    destruct s1 as [gg st]. apply progressGrows_same; reflexivity.
  - destruct HI as (HI & _).
    destruct (enabled e w); [ | discriminate ]. injection Ha as <-.
    eexists. split; [ reflexivity | ]. apply fire_grows. exact HI.
  - destruct (_completed (scene w)); [ | discriminate ]. injection Ha as <-.
    destruct lvl; eexists; (split; [ reflexivity | ]);
      apply progressGrows_refl.
  - injection Ha as <-. eexists. split; [ reflexivity | ].
    destruct s1 as [gg st]. apply progressGrows_same; reflexivity.
  - destruct HI as (Hh & Hl & Hhl & Hll & Hst).
    injection Ha as <-.
    destruct h as [[gg st] hl ll ts sd]. unfold hG in *. simpl in *.
    subst hl ll sd.
    destruct b; simpl.
    + eexists. split; [ reflexivity | apply progressGrows_refl ].
    + unfold lungsOnClick, hG; simpl. rewrite Hh. simpl.
      eexists. split; [ reflexivity | ].
      apply progressGrows_same; reflexivity.
    + eexists. split; [ reflexivity | ].
      apply progressGrows_same; reflexivity.
Qed.

Lemma play_grows (acts : list Action) (g g' : Game) (s : Session) :
  GameInv g ->
  play acts g = Some g' ->
  sessionOf (running g) = Some s ->
  exists s', sessionOf (running g') = Some s' /\ progressGrows s s'.
Proof.
  revert g s. induction acts as [ | a acts IH]; simpl; intros g s HI Hp Hs.
  - injection Hp as <-. exists s. split; [ exact Hs | ].
    apply progressGrows_refl.
  - destruct (act a g) as [g1 | ] eqn:Ha; [ | discriminate ].
    destruct (act_grows a g g1 s HI Ha Hs) as (s1 & Hs1 & Hg1).
    destruct (IH g1 s1 (act_GameInv a g g1 HI Ha) Hp Hs1) as (s2 & Hs2 & Hg2).
    exists s2. split; [ exact Hs2 | ].
    eapply progressGrows_trans; eassumption.
Qed.

(** X15. No way through the game takes progress away: from the title
    on, the star count of the session never goes down (the hub's repair,
    the only code that takes a star, never runs), a system flagged
    repaired stays flagged, and the learned facts are only extended at
    the end. *)
Theorem stars_are_never_spent
  (s0 s : Session) (acts : list Action) (g : Game) :
  play acts (boot s0) = Some g ->
  sessionOf (running g) = Some s ->
  stars (sG s0) <= stars (sG s) /\
  (heart (systems (sG s0)) = true -> heart (systems (sG s)) = true) /\
  (lungs (systems (sG s0)) = true -> lungs (systems (sG s)) = true) /\
  (exists new, facts (sG s) = (facts (sG s0) ++ new)%list).
Proof.
  intros Hp Hs.
  destruct (play_grows acts (boot s0) g s0 (boot_GameInv s0) Hp eq_refl)
    as (s' & Hs' & A1 & A2 & A3 & A4 & _).
  assert (s' = s) by congruence. subst s'. auto.
Qed.


End GameFlowProperties.

(** * The clock display *)

(** [String(n)] for a whole number: its decimal digits, with a minus
    sign when negative. *)
Definition String_of (n : Z) : string :=
  DecimalString.NilZero.string_of_int (Z.to_int n).

(** [s.padStart(2,"0")] *)
Definition padStart2 (s : string) : string :=
  match String.length s with
  | O => "00"
  | S O => String "0" s
  | _ => s
  end.

(** [mmss(s)], the same as [mm] of the hub:
    [String(Math.floor(s/60)).padStart(2,"0")] then [":"] then
    [String(s%60).padStart(2,"0")], for a whole number of seconds. *)
Definition mmss (s : Z) : string :=
  (padStart2 (String_of (s / 60)) ++ ":" ++ padStart2 (String_of (Z.rem s 60)))%string.

(** The number that a string of decimal digits denotes, leading zeros
    allowed; [None] for the empty string and for a string with any other
    character. *)
Definition readDigits (s : string) : option Z :=
  option_map Z.of_uint (DecimalString.NilZero.uint_of_string s).

Section ClockDisplay.

Lemma padStart2_length (s : string) : (2 <= String.length (padStart2 s))%nat.
Proof.
  unfold padStart2. destruct s as [ | c [ | d r]]; simpl; lia.
Qed.

Lemma two_digits_below_hundred (n : Z) :
  0 <= n < 100 -> String.length (padStart2 (String_of n)) = 2%nat.
Proof.
  intros Hn.
  assert (Hall : forallb
                   (fun k => Nat.eqb
                      (String.length (padStart2 (String_of (Z.of_nat k)))) 2)
                   (seq 0 100) = true) by (vm_compute; reflexivity).
  rewrite forallb_forall in Hall.
  specialize (Hall (Z.to_nat n)).
  rewrite Z2Nat.id in Hall by lia.
  apply Nat.eqb_eq, Hall, in_seq. lia.
Qed.

Lemma string_length_app (a b : string) :
  String.length (a ++ b)%string = (String.length a + String.length b)%nat.
Proof.
  induction a as [ | c a IH]; simpl; [ reflexivity | rewrite IH; reflexivity ].
Qed.

(** [String(n)] reads back as [n]. *)
Lemma readDigits_String_of (n : Z) :
  0 <= n -> readDigits (String_of n) = Some n.
Proof.
  intros Hn. unfold readDigits, String_of.
  destruct n as [ | p | p]; [ reflexivity | | lia ].
  simpl Z.to_int. cbn [DecimalString.NilZero.string_of_int].
  rewrite DecimalString.NilZero.usu by apply DecimalPos.Unsigned.to_uint_nonnil.
  simpl. unfold Z.of_uint. rewrite DecimalPos.Unsigned.of_to. reflexivity.
Qed.

(** Padding with a zero in front does not change the number read. *)
Lemma readDigits_padStart2 (s : string) (n : Z) :
  readDigits s = Some n -> readDigits (padStart2 s) = Some n.
Proof.
  unfold padStart2. destruct s as [ | c [ | d r]]; simpl String.length;
    cbv iota; intros Hr.
  - vm_compute in Hr. discriminate Hr.
  - unfold readDigits in *.
    change (DecimalString.NilZero.uint_of_string (String "0" (String c "")))
      with (DecimalString.uint_of_char "0"
              (DecimalString.NilEmpty.uint_of_string (String c ""))).
    change (DecimalString.NilZero.uint_of_string (String c ""))
      with (DecimalString.NilEmpty.uint_of_string (String c "")) in Hr.
    destruct (DecimalString.NilEmpty.uint_of_string (String c ""))
      as [u | ]; [ exact Hr | discriminate Hr ].
  - exact Hr.
Qed.

Lemma string_app_inj_length (a a' b b' : string) :
  String.length a = String.length a' ->
  (a ++ b)%string = (a' ++ b')%string -> a = a' /\ b = b'.
Proof.
  revert a'. induction a as [ | c a IH]; intros [ | c' a']; simpl;
    try discriminate.
  - auto.
  - intros Hl He. injection Hl as Hl. injection He as -> He.
    destruct (IH a' Hl He) as [-> ->]. auto.
Qed.

(** X16. The clock shows the playtime as minutes, a colon and seconds,
    and can be read back: for every playtime of 0 or more whole seconds
    the display is a string of digits that reads as the whole minutes
    (at least two digits, exactly two below 100 minutes), then a colon,
    then exactly two digits that read as the seconds left over. So two
    different playtimes never show the same display. *)
Theorem clock_display_reads_back (s : Z) :
  0 <= s ->
  (exists mm ss : string,
      mmss s = (mm ++ ":" ++ ss)%string /\
      readDigits mm = Some (s / 60) /\
      readDigits ss = Some (s mod 60) /\
      String.length ss = 2%nat /\
      (2 <= String.length mm)%nat /\
      (s < 6000 -> String.length mm = 2%nat)) /\
  (forall s' : Z, 0 <= s' -> mmss s' = mmss s -> s' = s).
Proof.
  assert (Hshape : forall t, 0 <= t ->
            readDigits (padStart2 (String_of (t / 60))) = Some (t / 60) /\
            readDigits (padStart2 (String_of (Z.rem t 60))) = Some (t mod 60) /\
            String.length (padStart2 (String_of (Z.rem t 60))) = 2%nat).
  { intros t Ht.
    assert (Hrem : Z.rem t 60 = t mod 60) by (apply Z.rem_mod_nonneg; lia).
    assert (Hm : 0 <= t mod 60 < 60) by (apply Z.mod_pos_bound; lia).
    split; [ apply readDigits_padStart2, readDigits_String_of;
             apply Z.div_pos; lia | ].
    rewrite Hrem.
    split; [ apply readDigits_padStart2, readDigits_String_of; lia | ].
    apply two_digits_below_hundred. lia. }
  intros Hs. destruct (Hshape s Hs) as (Hmin & Hsec & Htwo). split.
  - exists (padStart2 (String_of (s / 60))),
           (padStart2 (String_of (Z.rem s 60))).
    split; [ reflexivity | ]. split; [ exact Hmin | ].
    split; [ exact Hsec | ]. split; [ exact Htwo | ].
    split; [ apply padStart2_length | ].
    intros Hlt. apply two_digits_below_hundred.
    split; [ apply Z.div_pos; lia | apply Z.div_lt_upper_bound; lia ].
  - intros s' Hs' He.
    destruct (Hshape s' Hs') as (Hmin' & Hsec' & Htwo').
    unfold mmss in He.
    assert (Hlen : String.length (padStart2 (String_of (s' / 60)))
                   = String.length (padStart2 (String_of (s / 60)))).
    { apply (f_equal String.length) in He.
      rewrite !string_length_app, Htwo, Htwo' in He. lia. }
    destruct (string_app_inj_length _ _ _ _ Hlen He) as [Ea Eb].
    injection Eb as Eb.
    rewrite Ea, Hmin in Hmin'. rewrite Eb, Hsec in Hsec'.
    injection Hmin' as Hq. injection Hsec' as Hr.
    rewrite (Z.div_mod s 60), (Z.div_mod s' 60) by lia. lia.
Qed.

End ClockDisplay.

(** * The properties on concrete data *)

#[local] Existing Instance RefJSON.codec.

(** A first session, nothing stored. *)
Definition session0 : Session := mkSession G0 None.

(** The state a run of events leads to ([create] if the run is not
    possible). *)
Definition after `{JSON} (lvl : Level) (es : list Event) (s0 : Session)
  : World :=
  match run lvl es (create lvl s0) with
  | Some w => w
  | None => create lvl s0
  end.

(** A frame of 16 ms at clock reading [t], player on the ground, no key
    held. *)
Definition frameAt (t : Z) : Input := mkInput t 16 true false false.

Lemma after_reachable (lvl : Level) (es : list Event) (s0 : Session) :
  run lvl es (create lvl s0) <> None ->
  reachable lvl s0 (after lvl es s0).
Proof.
  intros Hrun. exists es. unfold after.
  destruct (run lvl es (create lvl s0)); [ reflexivity | contradiction ].
Defined.

(** Ten orbs and the power-up in the circulatory level. *)
Definition readyRun : list Event := repeat EOrb 10 ++ [EPowerup].

(** The three cases of the specification, in the circulatory level:
    energy 10 of 10 with the power-up only completes the level. *)
Example completes_with_powerup_only :
  let w := after CirculatoryLevel readyRun session0 in
  energy (wG w) = 10 /\ _brain (scene w) = true /\ _virus (scene w) = false /\
  _completed (scene (update CirculatoryLevel (frameAt 3000) w)) = true /\
  stars (wG (update CirculatoryLevel (frameAt 3000) w)) = 1 /\
  heart (systems (wG (update CirculatoryLevel (frameAt 3000) w))) = true.
Proof.
  vm_compute. repeat split.
Qed.

(** Energy 9 of 10 with both sub-goals does not. *)
Example stays_live_below_threshold :
  let w := after CirculatoryLevel
             (repeat EOrb 9 ++ [EPowerup; EVirus 2000 0]) session0 in
  energy (wG w) = 9 /\ _brain (scene w) = true /\ _virus (scene w) = true /\
  _completed (scene (update CirculatoryLevel (frameAt 3000) w)) = false /\
  stars (wG (update CirculatoryLevel (frameAt 3000) w)) = 0.
Proof.
  vm_compute. repeat split.
Qed.

(** Energy 10 of 10 with neither sub-goal does not. *)
Example stays_live_without_subgoal :
  let w := after CirculatoryLevel (repeat EOrb 10) session0 in
  energy (wG w) = 10 /\ _brain (scene w) = false /\ _virus (scene w) = false /\
  _completed (scene (update CirculatoryLevel (frameAt 3000) w)) = false /\
  stars (wG (update CirculatoryLevel (frameAt 3000) w)) = 0.
Proof.
  vm_compute. repeat split.
Qed.

Lemma completion_iff_objectives_witness :
  _completed (scene (update CirculatoryLevel (frameAt 3000)
                       (after CirculatoryLevel readyRun session0))) = true /\
  stars (wG (update CirculatoryLevel (frameAt 3000)
               (after CirculatoryLevel readyRun session0)))
  = stars (wG (after CirculatoryLevel readyRun session0)) + 1 /\
  heart (systems (wG (update CirculatoryLevel (frameAt 3000)
                        (after CirculatoryLevel readyRun session0)))) = true.
Proof.
  destruct (completion_iff_objectives CirculatoryLevel session0
              (after CirculatoryLevel readyRun session0) (frameAt 3000))
    as (Hiff & Hgrant & _).
  - simpl. lia.
  - apply after_reachable. vm_compute. discriminate.
  - assert (Hdone : _completed (scene (update CirculatoryLevel (frameAt 3000)
                      (after CirculatoryLevel readyRun session0))) = true).
    { apply Hiff. vm_compute. split; [ reflexivity | left; reflexivity ]. }
    split; [ exact Hdone | ].
    destruct Hgrant as (_ & Hstar & Hheart & _);
      [ vm_compute; reflexivity | exact Hdone | ].
    split; [ exact Hstar | exact Hheart ].
Defined.

Lemma energy_never_exceeds_threshold_witness :
  energy (wG (orbOverlap CirculatoryLevel
                (after CirculatoryLevel (repeat EOrb 11) session0)))
  = energy (wG (after CirculatoryLevel (repeat EOrb 11) session0)).
Proof.
  apply (energy_never_exceeds_threshold CirculatoryLevel session0
           (after CirculatoryLevel (repeat EOrb 11) session0)).
  - apply after_reachable. vm_compute. discriminate.
  - vm_compute. reflexivity.
Defined.

(** Ten hits, a second apart, in the circulatory level. *)
Definition fatalRun : list Event :=
  map (fun k => EVirus (1000 * Z.of_nat k) 0) (seq 1 10).

Lemma health_bounded_and_zero_restarts_witness :
  health (wG (after CirculatoryLevel fatalRun session0)) = 0 /\
  restartQueued (scene (update CirculatoryLevel (frameAt 10016)
                          (after CirculatoryLevel fatalRun session0))) = true /\
  freshRun (fire CirculatoryLevel ERestart
              (update CirculatoryLevel (frameAt 10016)
                 (after CirculatoryLevel fatalRun session0))).
Proof.
  destruct (health_bounded_and_zero_restarts CirculatoryLevel session0
              (after CirculatoryLevel fatalRun session0))
    as (_ & _ & _ & Hzero).
  - apply after_reachable. vm_compute. discriminate.
  - destruct (Hzero (frameAt 10016)) as (Hq & _ & Hfresh).
    + vm_compute. reflexivity.
    + vm_compute. reflexivity.
    + split; [ vm_compute; reflexivity | ]. split; assumption.
Defined.

(** The power-up taken and the level completed by the next tick: power
    mode is on and stays on, with 5984 ms left. *)
Definition completedRun : list Event := readyRun ++ [ETick (frameAt 3000)].

Lemma power_timer_frozen_once_completed :
  ~ (forall (lvl : Level) (s0 : Session) (w : World) (i : Input),
        reachable lvl s0 w ->
        powerMode (wG w) = true ->
        0 < dt i ->
        powerTimer (wG (update lvl i w)) < powerTimer (wG w)).
Proof.
  intros Hall.
  specialize (Hall CirculatoryLevel session0
                (after CirculatoryLevel completedRun session0)
                (frameAt 3016)).
  assert (Hlt : powerTimer (wG (update CirculatoryLevel (frameAt 3016)
                  (after CirculatoryLevel completedRun session0)))
                < powerTimer (wG (after CirculatoryLevel completedRun
                                    session0))).
  { apply Hall.
    - apply after_reachable. vm_compute. discriminate.
    - vm_compute. reflexivity.
    - vm_compute. reflexivity. }
  vm_compute in Hlt. discriminate.
Qed.

Lemma power_timer_counts_down_while_live_witness :
  powerTimer (wG (update CirculatoryLevel (frameAt 3000)
                    (after CirculatoryLevel [EPowerup] session0)))
  = powerTimer (wG (after CirculatoryLevel [EPowerup] session0)) - 16.
Proof.
  destruct (power_timer_counts_down_while_live CirculatoryLevel session0
              (after CirculatoryLevel [EPowerup] session0))
    as (_ & _ & _ & Htick & _).
  - apply after_reachable. vm_compute. discriminate.
  - destruct (Htick (frameAt 3000)) as (_ & Hleft & _).
    + vm_compute. reflexivity.
    + vm_compute. reflexivity.
    + vm_compute. reflexivity.
    + apply Hleft. vm_compute. reflexivity.
Defined.

(** A first hit at clock reading 2000 in a fresh level, and a second
    contact 100 ms later. *)
Lemma hit_cooldown_at_most_one_decrement_witness :
  health (wG (virusOverlap CirculatoryLevel 2100 1
                (virusOverlap CirculatoryLevel 2000 0
                   (create CirculatoryLevel session0))))
  = Z.max 0 (health (wG (create CirculatoryLevel session0)) - 10).
Proof.
  destruct (hit_cooldown_at_most_one_decrement CirculatoryLevel
              (create CirculatoryLevel session0) 2000 2100 0 1)
    as (_ & Hfirst & _).
  - vm_compute. reflexivity.
  - vm_compute. reflexivity.
  - vm_compute. reflexivity.
  - destruct Hfirst as (Hh & _ & Hsame); [ vm_compute; discriminate | ].
    rewrite Hsame. exact Hh.
Defined.

(** A hit at clock reading 2000, then contacts at 2100 and 2200: the two
    are 100 ms apart and neither takes health, since both come less
    than 650 ms after the hit at 2000. *)
Lemma no_decrement_inside_earlier_cooldown :
  ~ (forall (lvl : Level) (s0 : Session) (w : World) (t1 t2 : Z)
            (i1 i2 : nat),
        reachable lvl s0 w ->
        hostile w i1 = true ->
        hostile w i2 = true ->
        lastHitAt (scene w) <= t1 ->
        t1 <= t2 ->
        t2 - t1 < HIT_COOLDOWN_MS ->
        10 <= health (wG w) ->
        health (wG (virusOverlap lvl t2 i2 (virusOverlap lvl t1 i1 w)))
        = health (wG w) - 10).
Proof.
  intros Hall.
  specialize (Hall CirculatoryLevel session0
                (after CirculatoryLevel [EVirus 2000 0] session0)
                2100 2200 0%nat 1%nat).
  assert (Heq : health (wG (virusOverlap CirculatoryLevel 2200 1
                   (virusOverlap CirculatoryLevel 2100 0
                      (after CirculatoryLevel [EVirus 2000 0] session0))))
                = health (wG (after CirculatoryLevel [EVirus 2000 0]
                                session0)) - 10).
  { apply Hall.
    - apply after_reachable. vm_compute. discriminate.
    - vm_compute. reflexivity.
    - vm_compute. reflexivity.
    - vm_compute. discriminate.
    - vm_compute. discriminate.
    - vm_compute. reflexivity.
    - vm_compute. discriminate. }
  vm_compute in Heq. discriminate.
Qed.

(** A frame on the ground, a press 10 ms later, and the next frame. *)
Lemma jump_needs_buffered_press_and_ground_witness :
  (countJumps ([Frame (frameAt 2000); Press 2010] ++ [Frame (frameAt 2016)])
              (enableCursors (scene (create CirculatoryLevel session0)))
   <= countPresses
        ([Frame (frameAt 2000); Press 2010] ++ [Frame (frameAt 2016)]))%nat.
Proof.
  destruct jump_needs_buffered_press_and_ground as (_ & _ & _ & Hrun).
  apply (Hrun (scene (create CirculatoryLevel session0))
              [Frame (frameAt 2000); Press 2010] (frameAt 2016)).
  repeat constructor; vm_compute; reflexivity.
Defined.

Example jump_taken_once :
  let s := enableCursors (scene (create CirculatoryLevel session0)) in
  countJumps [Frame (frameAt 2000); Press 2010; Frame (frameAt 2016);
              Frame (frameAt 2032)] s = 1%nat /\
  velocityY (player (controlAll [Frame (frameAt 2000); Press 2010;
                                 Frame (frameAt 2016)] s)) = JUMP_VELOCITY.
Proof.
  vm_compute. split; reflexivity.
Qed.

(** The hub of a first session: no star, heart not repaired. The press
    reaches no listener, so no notice appears. *)
Lemma repair_press_shows_no_notice :
  ~ refusedWithNotice (BodyMap_create session0).
Proof.
  intros [_ Htoast]. vm_compute in Htoast. discriminate.
Qed.

Lemma repair_needs_a_star_witness :
  stars (hG (pointerdown HeartBtn
               (hubAfter [] (mkSession (set_stars 1 G0) None)))) = 0 /\
  heart (systems (hG (pointerdown HeartBtn
                        (hubAfter [] (mkSession (set_stars 1 G0) None)))))
  = true.
Proof.
  destruct (repair_needs_a_star (mkSession (set_stars 1 G0) None) [])
    as (_ & Hrepair).
  - vm_compute. reflexivity.
  - destruct Hrepair as (Hs & Hsys & _).
    + vm_compute. discriminate.
    + split; [ rewrite Hs; vm_compute; reflexivity | rewrite Hsys; reflexivity ].
Defined.

(** * The further properties on concrete data *)

(** The ready run of the circulatory level: ten orbs gone, energy 10. *)
Lemma objectives_account_for_sprites_witness :
  energy (wG (after CirculatoryLevel readyRun session0))
  = Z.min (maxE CirculatoryLevel)
      (Z.of_nat (initialOrbs CirculatoryLevel
                 - orbs (scene (after CirculatoryLevel readyRun session0)))).
Proof.
  destruct (objectives_account_for_sprites CirculatoryLevel session0
              (after CirculatoryLevel readyRun session0))
    as (_ & He & _).
  - apply after_reachable. vm_compute. discriminate.
  - exact He.
Defined.

(** A contact with the first virus right after the power-up. *)
Lemma contact_outcome_follows_power_mode_witness :
  health (wG (virusOverlap CirculatoryLevel 2000 0
                (after CirculatoryLevel [EPowerup] session0)))
  = health (wG (after CirculatoryLevel [EPowerup] session0)).
Proof.
  destruct (viruses (scene (after CirculatoryLevel [EPowerup] session0))
              !! 0%nat) as [v|] eqn:Ev;
    [ | vm_compute in Ev; discriminate ].
  destruct (contact_outcome_follows_power_mode CirculatoryLevel session0
              (after CirculatoryLevel [EPowerup] session0) 2000 0 v)
    as (_ & _ & _ & Hpow & _).
  - apply after_reachable. vm_compute. discriminate.
  - exact Ev.
  - destruct Hpow as (Hh & _); [ vm_compute; reflexivity | exact Hh ].
Defined.

Lemma objectives_never_regress_witness :
  energy (wG (create CirculatoryLevel session0))
  <= energy (wG (after CirculatoryLevel readyRun session0)).
Proof.
  destruct (objectives_never_regress CirculatoryLevel readyRun
              (create CirculatoryLevel session0)
              (after CirculatoryLevel readyRun session0))
    as (He & _).
  - vm_compute. reflexivity.
  - vm_compute. reflexivity.
  - exact He.
Defined.

(** Ten hits a second apart: 100 points lost over 9000 ms and more. *)
Lemma damage_rate_is_bounded_witness :
  65 * (health (wG (create CirculatoryLevel session0))
        - health (wG (after CirculatoryLevel fatalRun session0)))
  <= lastHitAt (scene (after CirculatoryLevel fatalRun session0))
     - lastHitAt (scene (create CirculatoryLevel session0)).
Proof.
  destruct (damage_rate_is_bounded CirculatoryLevel fatalRun
              (create CirculatoryLevel session0)
              (after CirculatoryLevel fatalRun session0))
    as (_ & _ & Hrate).
  - vm_compute. reflexivity.
  - vm_compute. reflexivity.
  - vm_compute. discriminate.
  - exact Hrate.
Defined.

Lemma one_power_up_per_attempt_witness :
  enabled EPowerup (after CirculatoryLevel [EPowerup] session0) = false.
Proof.
  destruct (one_power_up_per_attempt CirculatoryLevel session0
              [ETick (frameAt 3000)]
              (after CirculatoryLevel [EPowerup] session0)
              (after CirculatoryLevel [EPowerup; ETick (frameAt 3000)]
                 session0))
    as (_ & Hbrain).
  - apply after_reachable. vm_compute. discriminate.
  - vm_compute. reflexivity.
  - vm_compute. reflexivity.
  - destruct Hbrain as (Hoff & _); [ vm_compute; reflexivity | exact Hoff ].
Defined.

(** Two frames of 16 ms into a power mode of 6000 ms. *)
Lemma power_mode_lasts_for_remaining_time_witness :
  powerTimer (wG (after CirculatoryLevel
                    [EPowerup; ETick (frameAt 3000); ETick (frameAt 3016)]
                    session0))
  = powerTimer (wG (after CirculatoryLevel [EPowerup] session0))
    - sumZ (map dt [frameAt 3000; frameAt 3016]).
Proof.
  destruct (power_mode_lasts_for_remaining_time CirculatoryLevel session0
              [frameAt 3000; frameAt 3016]
              (after CirculatoryLevel [EPowerup] session0)
              (after CirculatoryLevel
                 [EPowerup; ETick (frameAt 3000); ETick (frameAt 3016)]
                 session0))
    as (_ & Hon & _).
  - apply after_reachable. vm_compute. discriminate.
  - vm_compute. reflexivity.
  - vm_compute. reflexivity.
  - vm_compute. reflexivity.
  - destruct Hon as (_ & Ht); [ vm_compute; reflexivity | exact Ht ].
Defined.

Lemma loaded_progress_is_stable_witness :
  Store.load Store.defaults (Store.persist (progress_of sampleG) None)
  = Return (progress_of sampleG).
Proof.
  destruct (loaded_progress_is_stable Store.defaults Store.defaults
              (progress_of sampleG)
              (Store.persist (progress_of sampleG) None) None)
    as (_ & Hload).
  - split; vm_compute; discriminate.
  - vm_compute. reflexivity.
  - split; [ vm_compute; discriminate | vm_compute; reflexivity ].
  - exact Hload.
Defined.

Lemma facts_are_append_only_witness :
  NoDup (facts (wG (after CirculatoryLevel completedRun session0))).
Proof.
  destruct (facts_are_append_only CirculatoryLevel session0
              (after CirculatoryLevel completedRun session0))
    as (_ & Hnodup).
  - apply after_reachable. vm_compute. discriminate.
  - apply Hnodup. vm_compute. constructor.
Defined.

Lemma level_run_keeps_stars_and_systems_witness :
  stars (sG session0)
  <= stars (wG (after CirculatoryLevel completedRun session0)).
Proof.
  destruct (level_run_keeps_stars_and_systems CirculatoryLevel session0
              (after CirculatoryLevel completedRun session0))
    as (Hs & _).
  - apply after_reachable. vm_compute. discriminate.
  - exact Hs.
Defined.

Lemma completed_level_is_stored_witness :
  Store.load Store.defaults
    (wStore (after CirculatoryLevel completedRun session0))
  = Return (progress_of (wG (after CirculatoryLevel completedRun session0))).
Proof.
  destruct (completed_level_is_stored CirculatoryLevel session0
              (after CirculatoryLevel completedRun session0) Store.defaults)
    as (_ & Hload).
  - apply after_reachable. vm_compute. discriminate.
  - left. vm_compute. reflexivity.
  - apply Hload.
    split; [ vm_compute; discriminate | vm_compute; reflexivity ].
Defined.

(** A frame in the air, in mid-jump. *)
Definition airFrameAt (t : Z) : Input := mkInput t 16 false false false.

(** The jump of [jump_taken_once], then two presses in mid-air. *)
Lemma no_second_jump_in_mid_air_witness :
  countJumps [Press 2020; Frame (airFrameAt 2032); Press 2040;
              Frame (airFrameAt 2048)]
    (applyMoveAndJump (frameAt 2016)
       (controlAll [Frame (frameAt 2000); Press 2010]
          (enableCursors (scene (create CirculatoryLevel session0)))))
  = 0%nat.
Proof.
  destruct (no_second_jump_in_mid_air (frameAt 2016)
              (controlAll [Frame (frameAt 2000); Press 2010]
                 (enableCursors (scene (create CirculatoryLevel session0))))
              [Press 2020; Frame (airFrameAt 2032); Press 2040;
               Frame (airFrameAt 2048)])
    as (Hnone & _).
  - vm_compute. reflexivity.
  - repeat constructor; vm_compute; reflexivity.
  - repeat constructor.
  - exact Hnone.
Defined.

(** From the title through the cinematic and the completed circulatory
    level to the start of the lungs level. *)
Definition firstWay : list Action :=
  [AStartMission; AViewBriefing; ANext; ANext; ANext; ATweenDone]
  ++ map ALevel completedRun ++ [AContinue; ATweenDone].

Definition afterWay `{JSON} (acts : list Action) (s0 : Session) : Game :=
  match play acts (boot s0) with
  | Some g => g
  | None => boot s0
  end.

Lemma flow_keeps_scenes_in_order_witness :
  running (afterWay firstWay session0) <> Crashed.
Proof.
  destruct (flow_keeps_scenes_in_order session0 firstWay
              (afterWay firstWay session0))
    as (Hok & _).
  - vm_compute. reflexivity.
  - exact Hok.
Defined.

Lemma stars_are_never_spent_witness :
  stars (sG session0)
  <= stars (sG (session (create LungsLevel
                           (session (after CirculatoryLevel completedRun
                                       session0))))).
Proof.
  destruct (stars_are_never_spent session0
              (session (create LungsLevel
                          (session (after CirculatoryLevel completedRun
                                      session0))))
              firstWay (afterWay firstWay session0))
    as (Hs & _).
  - vm_compute. reflexivity.
  - vm_compute. reflexivity.
  - exact Hs.
Defined.

(** 754 seconds of playtime: 12 minutes and 34 seconds. *)
Lemma clock_display_reads_back_witness :
  exists mm ss : string,
    mmss 754 = (mm ++ ":" ++ ss)%string /\
    readDigits mm = Some 12 /\ readDigits ss = Some 34.
Proof.
  destruct (clock_display_reads_back 754) as ((mm & ss & He & Hm & Hsv & _) & _).
  - lia.
  - exists mm, ss. split; [ exact He | ]. split; [ exact Hm | exact Hsv ].
Defined.

(** The hub with one star and the heart not yet repaired: the repair is
    pressed, then the lungs button starts the lungs level. *)
Lemma lungs_start_needs_repaired_heart_witness :
  started (pointerdown LungsBtn
             (hubAfter [HeartBtn] (mkSession (set_stars 1 G0) None)))
  = Some LungsLevel.
Proof.
  destruct (lungs_start_needs_repaired_heart
              (mkSession (set_stars 1 G0) None) [HeartBtn])
    as (_ & Hplay & _).
  destruct Hplay as (Hstart & _); [ vm_compute; reflexivity | exact Hstart ].
Defined.

Lemma hub_costs_at_most_one_star_witness :
  stars (sG (mkSession (set_stars 3 G0) None)) - 1
  <= stars (hG (hubAfter [HeartBtn; HeartBtn; LungsBtn; HeartBtn]
                  (mkSession (set_stars 3 G0) None))).
Proof.
  destruct (hub_costs_at_most_one_star (mkSession (set_stars 3 G0) None)
              [HeartBtn; HeartBtn; LungsBtn; HeartBtn])
    as (_ & _ & (Hlow & _) & _).
  exact Hlow.
Defined.

(** Ten hits in the circulatory level, an orb taken before: the tick at
    health 0 queues the restart, and the restarted level has full
    health with the score of the orb kept. *)
Lemma reset_keeps_score_and_score_is_not_persisted_witness :
  health (wG (fire CirculatoryLevel ERestart
                (update CirculatoryLevel (frameAt 10016)
                   (after CirculatoryLevel (EOrb :: fatalRun) session0))))
  = 100 /\
  score (wG (fire CirculatoryLevel ERestart
               (update CirculatoryLevel (frameAt 10016)
                  (after CirculatoryLevel (EOrb :: fatalRun) session0))))
  = score (wG (after CirculatoryLevel (EOrb :: fatalRun) session0)).
Proof.
  destruct reset_keeps_score_and_score_is_not_persisted
    as (_ & _ & _ & Hzero & _).
  destruct (Hzero CirculatoryLevel session0
              (after CirculatoryLevel (EOrb :: fatalRun) session0)
              (frameAt 10016))
    as (_ & Hh & _ & _ & _ & Hs).
  - apply after_reachable. vm_compute. discriminate.
  - vm_compute. reflexivity.
  - vm_compute. discriminate.
  - split; [ exact Hh | exact Hs ].
Defined.



